(** * Azure as-built configuration collector: workflow parser and aggregator

    A shallow embedding of [scripts/azure_config_collector.py].

    - Python values that reach the collector (parsed JSON) are the
      inductive type [value]; a [dict] is an association list in insertion
      order whose keys are strings.
    - Python exceptions are explicit: every operation that can raise
      returns a [result].
    - The built-in [set] has no specified iteration order.  The ordering
      algorithm iterates a set, so everything that depends on it is
      parametric in the iteration order [set_iter].
    - Strings are byte strings and [str.lower] maps the ASCII letters;
      numbers are integers; mapping keys are strings, as in parsed JSON. *)

From Stdlib Require Import Ascii String.
From stdpp Require Import gmap strings list pretty relations.

Local Open Scope string_scope.
Local Open Scope list_scope.

Set Warnings "-clear-no-such-hyp".

(** ** Python values *)

#[warnings="-register-all"]
Inductive value : Type :=
| VNone
| VBool (b : bool)
| VInt (z : Z)
| VStr (s : string)
| VList (l : list value)
| VDict (d : list (string * value)).

Abbreviation pydict := (list (string * value)).

(** ** Exceptions *)

Inductive exn : Type := AttributeError | TypeError | KeyError.

Inductive result (A : Type) : Type :=
| Ok (a : A)
| Raise (e : exn).
Arguments Ok {A} a.
Arguments Raise {A} e.

#[global] Instance result_ret : MRet result := λ A a, Ok a.
#[global] Instance result_bind : MBind result := λ A B f m,
  match m with
  | Ok a => f a
  | Raise e => Raise e
  end.

Definition is_ok {A} (m : result A) : bool :=
  match m with Ok _ => true | Raise _ => false end.

(** ** Strings *)

Module PyStr.

Definition dquote : ascii := "034"%char.
Definition squote : ascii := "039"%char.
Definition backslash : ascii := "092"%char.
Definition nl : string := String "010"%char EmptyString.

Definition lower_char (c : ascii) : ascii :=
  let n := nat_of_ascii c in
  if (65 <=? n)%nat && (n <=? 90)%nat then ascii_of_nat (n + 32) else c.

(** [s.lower()] *)
Fixpoint lower (s : string) : string :=
  match s with
  | EmptyString => EmptyString
  | String c s' => String (lower_char c) (lower s')
  end.

(** [sub in s] for two strings *)
Fixpoint contains (sub s : string) : bool :=
  String.prefix sub s ||
  match s with
  | EmptyString => false
  | String _ s' => contains sub s'
  end.

(** [s[:n]] *)
Fixpoint take (n : nat) (s : string) : string :=
  match n, s with
  | S n', String c s' => String c (take n' s')
  | _, _ => EmptyString
  end.

(** [s.split(sep)] for a one-character separator *)
Fixpoint split (sep : ascii) (s : string) : list string :=
  match s with
  | EmptyString => [EmptyString]
  | String c s' =>
      if Ascii.eqb c sep then EmptyString :: split sep s'
      else match split sep s' with
           | x :: r => String c x :: r
           | [] => [String c EmptyString]
           end
  end.

(** [s.split(sep)[-1]] *)
Definition last_segment (sep : ascii) (s : string) : string :=
  List.last (split sep s) EmptyString.

(** [sep.join(l)] *)
Definition join (sep : string) (l : list string) : string :=
  String.concat sep l.

Definition hex_digit (n : nat) : ascii :=
  if (n <? 10)%nat then ascii_of_nat (48 + n) else ascii_of_nat (87 + n).

Definition repr_char (q c : ascii) : string :=
  let n := nat_of_ascii c in
  if Ascii.eqb c backslash then String backslash (String backslash "")
  else if Ascii.eqb c q then String backslash (String q "")
  else if (n =? 10)%nat then String backslash "n"
  else if (n =? 13)%nat then String backslash "r"
  else if (n =? 9)%nat then String backslash "t"
  else if (n <? 32)%nat || (n =? 127)%nat
       then String backslash
              (String "x" (String (hex_digit (n / 16))
                             (String (hex_digit (n mod 16)) "")))
  else String c "".

Fixpoint repr_body (q : ascii) (s : string) : string :=
  match s with
  | EmptyString => EmptyString
  | String c s' => repr_char q c +:+ repr_body q s'
  end.

(** [repr(s)]: single quotes unless the text has a single quote and no
    double quote *)
Definition repr (s : string) : string :=
  let q := if contains (String squote "") s && negb (contains (String dquote "") s)
           then dquote else squote in
  String q (repr_body q s) +:+ String q "".

End PyStr.

(** ** Built-in operations on values *)

Fixpoint dict_get (k : string) (d : pydict) : option value :=
  match d with
  | [] => None
  | (k', v) :: d' => if String.eqb k k' then Some v else dict_get k d'
  end.

Definition dict_keys (d : pydict) : list string := d.*1.

(** [bool(v)] *)
Definition truthy (v : value) : bool :=
  match v with
  | VNone => false
  | VBool b => b
  | VInt z => negb (z =? 0)%Z
  | VStr s => negb (String.eqb s "")
  | VList l => negb (Nat.eqb (length l) 0)
  | VDict d => negb (Nat.eqb (length d) 0)
  end.

(** [isinstance(v, dict)] *)
Definition is_dict (v : value) : bool :=
  match v with VDict _ => true | _ => false end.

(** [v.get(k, dflt)]: only a dict has the attribute *)
Definition py_get (v : value) (k : string) (dflt : value) : result value :=
  match v with
  | VDict d => Ok (default dflt (dict_get k d))
  | _ => Raise AttributeError
  end.

(** [v.get(k)] *)
Definition py_get_none (v : value) (k : string) : result value :=
  py_get v k VNone.

(** [v.keys()] *)
Definition py_keys (v : value) : result (list string) :=
  match v with
  | VDict d => Ok (dict_keys d)
  | _ => Raise AttributeError
  end.

(** [v.items()] *)
Definition py_items (v : value) : result pydict :=
  match v with
  | VDict d => Ok d
  | _ => Raise AttributeError
  end.

(** [v.lower()]: only a str has the attribute *)
Definition py_lower (v : value) : result string :=
  match v with
  | VStr s => Ok (PyStr.lower s)
  | _ => Raise AttributeError
  end.

(** [v.split("/")[-1]] *)
Definition py_split_last (v : value) : result string :=
  match v with
  | VStr s => Ok (PyStr.last_segment "/" s)
  | _ => Raise AttributeError
  end.

(** [v[:50]]: str and list can be sliced *)
Definition py_slice50 (v : value) : result value :=
  match v with
  | VStr s => Ok (VStr (PyStr.take 50 s))
  | VList l => Ok (VList (take 50 l))
  | _ => Raise TypeError
  end.

(** [repr(v)] and [str(v)], as used by f-strings *)
Fixpoint py_repr (v : value) : string :=
  match v with
  | VNone => "None"
  | VBool true => "True"
  | VBool false => "False"
  | VInt z => pretty z
  | VStr s => PyStr.repr s
  | VList l => "[" +:+ PyStr.join ", " (map py_repr l) +:+ "]"
  | VDict d =>
      "{" +:+ PyStr.join ", "
                (map (λ kv, PyStr.repr kv.1 +:+ ": " +:+ py_repr kv.2) d) +:+ "}"
  end.

Definition py_str (v : value) : string :=
  match v with
  | VStr s => s
  | _ => py_repr v
  end.

(** [a == b]: bool is a subtype of int, dict comparison ignores order *)
Definition int_of (v : value) : option Z :=
  match v with
  | VBool b => Some (if b then 1 else 0)%Z
  | VInt z => Some z
  | _ => None
  end.

Fixpoint py_eq (a b : value) : bool :=
  match a, b with
  | VNone, VNone => true
  | VStr s, VStr t => String.eqb s t
  | VList l, VList m =>
      (fix go (l m : list value) : bool :=
         match l, m with
         | [], [] => true
         | x :: l', y :: m' => py_eq x y && go l' m'
         | _, _ => false
         end) l m
  | VDict d, VDict e =>
      Nat.eqb (length d) (length e) &&
      (fix go (d : pydict) : bool :=
         match d with
         | [] => true
         | (k, x) :: d' =>
             match dict_get k e with
             | Some y => py_eq x y
             | None => false
             end && go d'
         end) d
  | _, _ =>
      match int_of a, int_of b with
      | Some x, Some y => (x =? y)%Z
      | _, _ => false
      end
  end.

(** [x in l] for a list [l] *)
Definition py_in_list (x : value) (l : list value) : bool :=
  existsb (py_eq x) l.

(** [sub in v] for a string [sub]: substring test on a str, membership on a
    list, key membership on a dict; other values are not containers *)
Definition py_str_in (sub : string) (v : value) : result bool :=
  match v with
  | VStr s => Ok (PyStr.contains sub s)
  | VList l => Ok (py_in_list (VStr sub) l)
  | VDict d => Ok (bool_decide (sub ∈ dict_keys d))
  | _ => Raise TypeError
  end.

(** A [for] loop whose body can raise *)
Fixpoint foldM {S A : Type} (body : S → A → result S) (s : S) (l : list A)
  : result S :=
  match l with
  | [] => Ok s
  | x :: l' => s' ← body s x; foldM body s' l'
  end.

(** ** WorkflowParser *)

Module WorkflowParser.

(** The documentation record built by [parse_workflow]. *)

Record TriggerInfo : Type := {
  t_name : string;
  t_type : value;
  t_kind : value;
  t_description : string
}.

Record ActionInfo : Type := {
  a_name : string;
  a_type : value;
  a_description : string;
  a_run_after : list string;
  a_inputs : pydict
}.

Record DataSource : Type := {
  ds_type : string;
  ds_action : value;
  ds_operation : option string
}.

Record ParsedWorkflow : Type := {
  triggers : list TriggerInfo;
  actions : list ActionInfo;
  connections : list value;
  data_sources : list DataSource;
  parameters : list value;
  variables : list value
}.

Definition empty_result : ParsedWorkflow :=
  {| triggers := []; actions := []; connections := [];
     data_sources := []; parameters := []; variables := [] |}.

(** *** Classification heuristics *)

Definition _describe_trigger (trigger : value) : result string :=
  t_type ← py_get trigger "type" (VStr "Unknown");
  if py_eq t_type (VStr "Request") then
    inputs ← py_get trigger "inputs" (VDict []);
    method ← py_get inputs "method" (VStr "POST");
    Ok ("HTTP " +:+ py_str method +:+ " Request - Receives incoming API calls")
  else if py_eq t_type (VStr "Recurrence") then
    rec ← py_get trigger "recurrence" (VDict []);
    freq ← py_get rec "frequency" (VStr "Day");
    interval ← py_get rec "interval" (VInt 1);
    freq_lower ← py_lower freq;
    Ok ("Scheduled - Runs every " +:+ py_str interval +:+ " "
          +:+ freq_lower +:+ "(s)")
  else if py_eq t_type (VStr "ApiConnection") then
    Ok "API Connection - Triggered by external service event"
  else
    Ok (py_str t_type +:+ " trigger").

Definition _describe_api_connection (inputs : value) : result string :=
  host ← py_get inputs "host" (VDict []);
  api_id ← py_get host "apiId" (VStr "");
  path ← py_get inputs "path" (VStr "");
  method ← py_get inputs "method" (VStr "");
  api_lower ← py_lower api_id;
  if PyStr.contains "sql" api_lower then
    path_lower ← py_lower path;
    if PyStr.contains "executestoredprocedure" path_lower then
      has_slash ← py_str_in "/" path;
      proc ← (if has_slash : bool then py_split_last path
              else Ok "stored procedure");
      Ok ("Execute SQL stored procedure: " +:+ proc)
    else if PyStr.contains "executequery" path_lower then
      Ok "Execute SQL query"
    else
      Ok "SQL Server operation"
  else if PyStr.contains "office365" api_lower then
    Ok "Office 365 operation"
  else if PyStr.contains "keyvault" api_lower then
    Ok "Key Vault secret operation"
  else
    shown ← (if truthy path then cut ← py_slice50 path; Ok (py_str cut)
             else Ok "operation");
    Ok ("API Connection: " +:+ py_str method +:+ " " +:+ shown).

(** The dispatch table of [_describe_action]; each entry is the outcome
    of calling the closure stored under that key. *)
Definition descriptions (inputs : value) : list (string * result string) :=
  [ ("Response",
      code ← py_get inputs "statusCode" (VInt 200);
      Ok ("Return HTTP " +:+ py_str code +:+ " response"));
    ("Compose", Ok "Transform/compose data");
    ("ParseJson", Ok "Parse JSON content");
    ("Condition", Ok "Conditional branch (If/Then/Else)");
    ("ForEach", Ok "Loop through collection");
    ("Switch", Ok "Switch/case evaluation");
    ("Scope", Ok "Grouped actions scope");
    ("InitializeVariable", Ok "Initialize variable");
    ("SetVariable", Ok "Set variable value");
    ("AppendToArrayVariable", Ok "Append to array");
    ("Http",
      method ← py_get inputs "method" (VStr "GET");
      uri ← py_get inputs "uri" (VStr "external service");
      cut ← py_slice50 uri;
      Ok ("HTTP " +:+ py_str method +:+ " call to " +:+ py_str cut));
    ("ApiConnection", _describe_api_connection inputs) ].

Fixpoint table_get {A} (k : string) (t : list (string * A)) : option A :=
  match t with
  | [] => None
  | (k', x) :: t' => if String.eqb k k' then Some x else table_get k t'
  end.

Definition _describe_action (action : value) : result string :=
  a_type ← py_get action "type" (VStr "Unknown");
  inputs ← py_get action "inputs" (VDict []);
  match a_type with
  | VList _ | VDict _ => Raise TypeError  (* unhashable key tested with [in] *)
  | VStr s =>
      match table_get s (descriptions inputs) with
      | Some entry => entry
      | None => Ok (py_str a_type +:+ " action")
      end
  | _ => Ok (py_str a_type +:+ " action")
  end.

Definition _extract_connection (action : value) : result value :=
  inputs ← py_get action "inputs" (VDict []);
  if is_dict inputs then
    host ← py_get inputs "host" (VDict []);
    if is_dict host then
      conn ← py_get host "connection" (VDict []);
      if is_dict conn then py_get_none conn "referenceName"
      else Ok VNone
    else Ok VNone
  else Ok VNone.

Definition _identify_data_source (action : value) : result (option DataSource) :=
  inputs ← py_get action "inputs" (VDict []);
  host ← (if is_dict inputs then py_get inputs "host" (VDict [])
          else Ok (VDict []));
  api_id ← (if is_dict host then py_get host "apiId" (VStr "")
            else Ok (VStr ""));
  api_lower ← py_lower api_id;
  if PyStr.contains "sql" api_lower then
    ty ← py_get_none action "type";
    path ← py_get_none inputs "path";
    op ← (if truthy path then
            path' ← py_get inputs "path" (VStr ""); py_split_last path'
          else Ok "query");
    Ok (Some {| ds_type := "SQL Server"; ds_action := ty;
                  ds_operation := Some op |})
  else if PyStr.contains "sharepointonline" api_lower then
    ty ← py_get_none action "type";
    Ok (Some {| ds_type := "SharePoint Online"; ds_action := ty;
                  ds_operation := None |})
  else if PyStr.contains "azureblob" api_lower then
    ty ← py_get_none action "type";
    Ok (Some {| ds_type := "Azure Blob Storage"; ds_action := ty;
                  ds_operation := None |})
  else Ok None.

(** *** Redaction *)

Definition REDACTED : value := VStr "[REDACTED]".

Definition sensitive_keys : list string :=
  ["authentication"; "password"; "secret"; "key"; "token"; "sig"].

(** [any(s in k.lower() for s in sensitive_keys)] *)
Definition is_sensitive (k : string) : bool :=
  existsb (λ s, PyStr.contains s (PyStr.lower k)) sensitive_keys.

Fixpoint _sanitize_inputs (inputs : value) : pydict :=
  match inputs with
  | VDict d =>
      map (λ kv : string * value,
             (kv.1,
              if is_sensitive kv.1 then REDACTED
              else match kv.2 with
                   | VDict _ => VDict (_sanitize_inputs kv.2)
                   | v => v
                   end)) d
  | _ => []
  end.

(** *** Ordering and parsing *)

(** [actions[name].get("runAfter", {}).keys()] *)
Definition deps_of (acts : pydict) (name : string) : result (list string) :=
  match dict_get name acts with
  | None => Raise KeyError
  | Some action => run_after ← py_get action "runAfter" (VDict []);
                   py_keys run_after
  end.

(** [all(d in ordered for d in deps)] *)
Definition all_in (ordered deps : list string) : bool :=
  forallb (λ d, bool_decide (d ∈ ordered)) deps.

(** The [for name in list(remaining)] scan: the first name whose
    dependencies are all ordered, or [None] when the loop reaches its
    [else] branch. *)
Fixpoint scan (acts : pydict) (ordered names : list string)
  : result (option string) :=
  match names with
  | [] => Ok None
  | name :: rest =>
      deps ← deps_of acts name;
      if all_in ordered deps then Ok (Some name)
      else scan acts ordered rest
  end.

Record order_state : Type := {
  ordered : list string;
  remaining : gset string;
  iteration : nat
}.

Section with_set_order.

(** The order in which a [set] holding exactly these names is iterated
    by [list(remaining)] and [ordered.extend(remaining)]. *)
Variable set_iter : gset string → list string.

(** The [while remaining and iteration < max_iterations] loop.  Every
    round increments [iteration], so [max_iterations] rounds of fuel
    are never used up before the loop condition fails. *)
Fixpoint order_loop (acts : pydict) (max_iterations fuel : nat)
    (st : order_state) : result order_state :=
  match fuel with
  | 0 => Ok st
  | S fuel' =>
      if bool_decide (remaining st ≠ ∅)
         && (iteration st <? max_iterations)%nat then
        let iteration' := S (iteration st) in
        found ← scan acts (ordered st) (set_iter (remaining st));
        match found with
        | Some name =>
            order_loop acts max_iterations fuel'
              {| ordered := ordered st ++ [name];
                 remaining := remaining st ∖ {[name]};
                 iteration := iteration' |}
        | None =>
            if bool_decide (remaining st ≠ ∅) then
              Ok {| ordered := ordered st ++ set_iter (remaining st);
                    remaining := remaining st;
                    iteration := iteration' |}
            else
              order_loop acts max_iterations fuel'
                {| ordered := ordered st; remaining := remaining st;
                   iteration := iteration' |}
        end
      else Ok st
  end.

Definition order_run (actions : value) : result order_state :=
  keys ← py_keys actions;
  acts ← py_items actions;
  let max_iterations := length acts * 2 in
  order_loop acts max_iterations max_iterations
    {| ordered := []; remaining := list_to_set keys; iteration := 0 |}.

Definition _order_actions (actions : value) : result (list string) :=
  st ← order_run actions; Ok (ordered st).

Definition parse_trigger (acc : list TriggerInfo) (item : string * value)
  : result (list TriggerInfo) :=
  let '(name, trigger) := item in
  ty ← py_get_none trigger "type";
  kind ← py_get_none trigger "kind";
  description ← _describe_trigger trigger;
  Ok (acc ++ [{| t_name := name; t_type := ty; t_kind := kind;
                 t_description := description |}]).

Definition parse_action (action_map : value) (res : ParsedWorkflow)
    (action_name : string) : result ParsedWorkflow :=
  action ← py_get action_map action_name (VDict []);
  ty ← py_get_none action "type";
  description ← _describe_action action;
  run_after ← py_get action "runAfter" (VDict []);
  run_after_keys ← py_keys run_after;
  inputs ← py_get action "inputs" (VDict []);
  let action_info :=
    {| a_name := action_name; a_type := ty; a_description := description;
       a_run_after := run_after_keys;
       a_inputs := _sanitize_inputs inputs |} in
  conn ← _extract_connection action;
  let connections' :=
    if truthy conn && negb (py_in_list conn (connections res))
    then connections res ++ [conn] else connections res in
  ds ← _identify_data_source action;
  let data_sources' :=
    match ds with
    | Some d => data_sources res ++ [d]
    | None => data_sources res
    end in
  Ok {| triggers := triggers res;
        actions := actions res ++ [action_info];
        connections := connections';
        data_sources := data_sources';
        parameters := parameters res;
        variables := variables res |}.

Definition parse_workflow (definition : value) : result ParsedWorkflow :=
  if negb (truthy definition) then Ok empty_result
  else
    trigger_map ← py_get definition "triggers" (VDict []);
    trigger_items ← py_items trigger_map;
    trigs ← foldM parse_trigger [] trigger_items;
    action_map ← py_get definition "actions" (VDict []);
    ordered_actions ← _order_actions action_map;
    foldM (parse_action action_map)
      {| triggers := trigs; actions := []; connections := [];
         data_sources := []; parameters := []; variables := [] |}
      ordered_actions.

End with_set_order.

(** *** Rendering

    [generate_markdown] builds the local list [lines] by appending and
    reads the record it is given.  Both live in an explicit heap, so that
    what a call does to the record is part of the model. *)

Record heap : Type := {
  h_parsed : ParsedWorkflow;
  h_lines : list string
}.

Definition Render (A : Type) : Type := heap → A * heap.

#[global] Instance render_ret : MRet Render := λ A a h, (a, h).
#[global] Instance render_bind : MBind Render := λ A B f m h,
  let '(a, h') := m h in f a h'.

Definition read_parsed : Render ParsedWorkflow := λ h, (h_parsed h, h).

Definition new_lines (l : list string) : Render unit := λ h,
  (tt, {| h_parsed := h_parsed h; h_lines := l |}).

Definition append (line : string) : Render unit := λ h,
  (tt, {| h_parsed := h_parsed h; h_lines := h_lines h ++ [line] |}).

Definition join_lines : Render string := λ h,
  (PyStr.join PyStr.nl (h_lines h), h).

Fixpoint for_each {A : Type} (l : list A) (body : A → Render unit)
  : Render unit :=
  match l with
  | [] => mret tt
  | x :: l' => λ h, let '(_, h') := body x h in for_each l' body h'
  end.

(** [enumerate(l, start)] *)
Fixpoint enumerate {A : Type} (start : nat) (l : list A) : list (nat * A) :=
  match l with
  | [] => []
  | x :: l' => (start, x) :: enumerate (S start) l'
  end.

Definition trigger_line (t : TriggerInfo) : string :=
  "- **" +:+ t_name t +:+ "** (" +:+ py_str (t_type t) +:+ "): "
  +:+ t_description t.

Definition action_row (ia : nat * ActionInfo) : string :=
  let '(i, a) := ia in
  let joined := PyStr.join ", " (a_run_after a) in
  let deps := if String.eqb joined "" then "-" else joined in
  "| " +:+ pretty i +:+ " | " +:+ a_name a +:+ " | " +:+ py_str (a_type a)
  +:+ " | " +:+ a_description a +:+ " | " +:+ deps +:+ " |".

Definition data_source_line (ds : DataSource) : string :=
  "- **" +:+ ds_type ds +:+ "**: " +:+ default "N/A" (ds_operation ds).

Definition generate_markdown_m (workflow_name : string) : Render string :=
  new_lines ["## " +:+ workflow_name +:+ PyStr.nl];;
  append "### Trigger Configuration";;
  parsed ← read_parsed;
  for_each (triggers parsed) (λ t, append (trigger_line t));;
  append "";;
  append "### Workflow Actions (Execution Order)";;
  append "";;
  append "| Step | Action | Type | Description | Depends On |";;
  append "|------|--------|------|-------------|------------|";;
  parsed ← read_parsed;
  for_each (enumerate 1 (actions parsed)) (λ ia, append (action_row ia));;
  append "";;
  parsed ← read_parsed;
  (if negb (Nat.eqb (length (connections parsed)) 0) then
     append "### API Connections";;
     for_each (connections parsed) (λ c, append ("- " +:+ py_str c));;
     append ""
   else mret tt);;
  parsed ← read_parsed;
  (if negb (Nat.eqb (length (data_sources parsed)) 0) then
     append "### Data Sources";;
     for_each (data_sources parsed) (λ ds, append (data_source_line ds));;
     append ""
   else mret tt);;
  join_lines.

Definition generate_markdown (parsed : ParsedWorkflow)
    (workflow_name : string) : string :=
  (generate_markdown_m workflow_name
     {| h_parsed := parsed; h_lines := [] |}).1.

End WorkflowParser.

(** ** ConfigurationAggregator: backend inference *)

Module ConfigurationAggregator.

(** The fragment of [re] used by [_identify_backend]: literal text and a
    capturing group [([^c]+)], matched greedily with backtracking. *)
Inductive re_item : Type :=
| Lit (s : string)
| GroupNot (c : ascii).

Fixpoint drop_str (n : nat) (s : string) : string :=
  match n, s with
  | S n', String _ s' => drop_str n' s'
  | _, _ => s
  end.

(** Length of the longest prefix without the character [c]. *)
Fixpoint run_not (c : ascii) (s : string) : nat :=
  match s with
  | String a s' => if Ascii.eqb a c then 0 else S (run_not c s')
  | EmptyString => 0
  end.

(** A greedy group followed by the rest [k] of the pattern: try the
    longest run first and back off one character at a time. *)
Fixpoint try_lengths (k : string → option (list string)) (s : string)
    (n : nat) : option (list string) :=
  match n with
  | 0 => None
  | S n' =>
      match k (drop_str n s) with
      | Some groups => Some (PyStr.take n s :: groups)
      | None => try_lengths k s n'
      end
  end.

(** Match the pattern at the start of [s]; the captured groups on success. *)
Fixpoint match_here (p : list re_item) (s : string) : option (list string) :=
  match p with
  | [] => Some []
  | Lit l :: p' =>
      if String.prefix l s then match_here p' (drop_str (String.length l) s)
      else None
  | GroupNot c :: p' => try_lengths (match_here p') s (run_not c s)
  end.

(** [re.search(p, s)]: the leftmost match *)
Fixpoint re_search (p : list re_item) (s : string) : option (list string) :=
  match match_here p s with
  | Some groups => Some groups
  | None =>
      match s with
      | EmptyString => None
      | String _ s' => re_search p s'
      end
  end.

(** The pattern [https://([^.]+)\.azurewebsites\.net] *)
Definition site_pattern : list re_item :=
  [Lit "https://"; GroupNot "."; Lit ".azurewebsites.net"].

(** [re.search] accepts a str only *)
Definition py_re_search (p : list re_item) (v : value)
  : result (option (list string)) :=
  match v with
  | VStr s => Ok (re_search p s)
  | _ => Raise TypeError
  end.

Definition _identify_backend (url : value) : result pydict :=
  standard ← py_str_in "azurewebsites.net" url;
  if standard : bool then
    found ← py_re_search site_pattern url;
    Ok [("type", VStr "Logic App Standard");
        ("name", VStr match found with
                      | Some (g :: _) => g
                      | _ => "Unknown"
                      end)]
  else
    consumption ← py_str_in "logic.azure.com" url;
    if consumption : bool then Ok [("type", VStr "Logic App Consumption")]
    else
      apim ← py_str_in "azure-api.net" url;
      if apim : bool then Ok [("type", VStr "APIM Backend")]
      else Ok [("type", VStr "External")].

(** [d[k] = v] *)
Fixpoint dict_set (k : string) (v : value) (d : pydict) : pydict :=
  match d with
  | [] => [(k, v)]
  | (k', v') :: d' =>
      if String.eqb k k' then (k, v) :: d' else (k', v') :: dict_set k v d'
  end.

(** [add_api_config]: the new content of [self.config["service"]] *)
Definition add_api_config (service : pydict) (api_data : value)
  : result pydict :=
  name ← py_get_none api_data "name";
  display_name ← py_get_none api_data "displayName";
  path ← py_get_none api_data "path";
  service_url ← py_get_none api_data "serviceUrl";
  protocols ← py_get_none api_data "protocols";
  subscription_required ← py_get_none api_data "subscriptionRequired";
  api_version ← py_get_none api_data "apiVersion";
  operations ← py_get api_data "operations" (VList []);
  let api :=
    [("name", name); ("display_name", display_name); ("path", path);
     ("service_url", service_url); ("protocols", protocols);
     ("subscription_required", subscription_required);
     ("api_version", api_version); ("operations", operations)] in
  backend_url ← py_get api_data "serviceUrl" (VStr "");
  if truthy backend_url then
    backend ← _identify_backend backend_url;
    Ok (dict_set "api" (VDict (dict_set "backend_type" (VDict backend) api))
          service)
  else Ok (dict_set "api" (VDict api) service).

(** *** The other category operations

    Each [add_..._config] computes one record from its payload and assigns
    it to its own key of [self.config["service"]].  The functions below
    give the content of that mapping after the call. *)

(** [for x in v]: a list yields its items, a dict its keys and a str its
    characters; other values cannot be iterated *)
Fixpoint str_chars (s : string) : list value :=
  match s with
  | EmptyString => []
  | String c s' => VStr (String c EmptyString) :: str_chars s'
  end.

Definition py_iter (v : value) : result (list value) :=
  match v with
  | VList l => Ok l
  | VDict d => Ok (VStr <$> dict_keys d)
  | VStr s => Ok (str_chars s)
  | _ => Raise TypeError
  end.

(** [v[0]], evaluated only where [v] is truthy: the first item of a list,
    the first character of a str; a dict with string keys has no key [0]
    and the other values cannot be indexed *)
Definition py_first (v : value) : result value :=
  match v with
  | VList (x :: _) => Ok x
  | VStr (String c _) => Ok (VStr (String c EmptyString))
  | VDict _ => Raise KeyError
  | _ => Raise TypeError
  end.

(** [v.get(k1, {}).get(k2)] *)
Definition py_get2 (v : value) (k1 k2 : string) : result value :=
  inner ← py_get v k1 (VDict []);
  py_get_none inner k2.

(** [v.get(k1, {}).get(k2, {}).get(k3)] *)
Definition py_get3 (v : value) (k1 k2 k3 : string) : result value :=
  inner ← py_get v k1 (VDict []);
  inner' ← py_get inner k2 (VDict []);
  py_get_none inner' k3.

(** The configuration tree: the three fixed top-level keys. *)
Record config : Type := {
  metadata : pydict;
  shared_infrastructure : pydict;
  service : pydict
}.

(** [__init__]; [now] stands for [datetime.now().isoformat()] *)
Definition init (now : string) : config :=
  {| metadata := [("collection_date", VStr now); ("version", VStr "1.0")];
     shared_infrastructure := [];
     service := [] |}.

(** [d.update(other)] *)
Definition dict_update (d other : pydict) : pydict :=
  fold_left (λ acc kv, dict_set kv.1 kv.2 acc) other d.

Definition set_metadata (cfg : config)
    (service_name environment subscription : value) : config :=
  {| metadata :=
       dict_update (metadata cfg)
         [("service_name", service_name); ("environment", environment);
          ("subscription", subscription)];
     shared_infrastructure := shared_infrastructure cfg;
     service := service cfg |}.

Definition add_apim_config (service : pydict) (apim_data : value)
  : result pydict :=
  name ← py_get_none apim_data "name";
  resource_group ← py_get_none apim_data "resourceGroup";
  region ← py_get_none apim_data "location";
  sku ← py_get2 apim_data "sku" "name";
  capacity ← py_get2 apim_data "sku" "capacity";
  gateway_url ← py_get_none apim_data "gatewayUrl";
  portal_url ← py_get_none apim_data "developerPortalUrl";
  vnet_type ← py_get_none apim_data "virtualNetworkType";
  identity_type ← py_get2 apim_data "identity" "type";
  principal_id ← py_get2 apim_data "identity" "principalId";
  Ok (dict_set "apim"
        (VDict [("resource_name", name); ("resource_group", resource_group);
                ("region", region); ("sku", sku); ("capacity", capacity);
                ("gateway_url", gateway_url);
                ("developer_portal_url", portal_url);
                ("virtual_network_type", vnet_type);
                ("identity", VDict [("type", identity_type);
                                    ("principal_id", principal_id)])])
        service).

Definition add_logic_app_config (service : pydict) (la_data : value)
  : result pydict :=
  name ← py_get_none la_data "name";
  resource_group ← py_get_none la_data "resourceGroup";
  kind ← py_get la_data "kind" (VStr "Standard");
  region ← py_get_none la_data "location";
  state ← py_get_none la_data "state";
  identity ← py_get la_data "identity" (VDict []);
  Ok (dict_set "logic_app"
        (VDict [("resource_name", name); ("resource_group", resource_group);
                ("type", kind); ("region", region); ("state", state);
                ("identity", identity)])
        service).

Import WorkflowParser.

(** The dict that a parsed record stands for. *)
Definition trigger_value (t : TriggerInfo) : value :=
  VDict [("name", VStr (t_name t)); ("type", t_type t); ("kind", t_kind t);
         ("description", VStr (t_description t))].

Definition action_value (a : ActionInfo) : value :=
  VDict [("name", VStr (a_name a)); ("type", a_type a);
         ("description", VStr (a_description a));
         ("run_after", VList (VStr <$> a_run_after a));
         ("inputs", VDict (a_inputs a))].

Definition data_source_value (ds : DataSource) : value :=
  VDict ([("type", VStr (ds_type ds)); ("action", ds_action ds)]
         ++ match ds_operation ds with
            | Some op => [("operation", VStr op)]
            | None => []
            end).

Definition parsed_value (r : ParsedWorkflow) : value :=
  VDict [("triggers", VList (trigger_value <$> triggers r));
         ("actions", VList (action_value <$> actions r));
         ("connections", VList (connections r));
         ("data_sources", VList (data_source_value <$> data_sources r));
         ("parameters", VList (parameters r));
         ("variables", VList (variables r))].

Definition add_workflow_config (set_iter : gset string → list string)
    (service : pydict) (workflow_def : value) (workflow_name : string)
  : result pydict :=
  parsed ← parse_workflow set_iter workflow_def;
  Ok (dict_set "workflow"
        (VDict [("name", VStr workflow_name);
                ("parsed", parsed_value parsed);
                ("markdown", VStr (generate_markdown parsed workflow_name))])
        service).

(** The [status] entry of one connection. *)
Definition connection_status (conn : value) : result value :=
  statuses ← py_get_none conn "statuses";
  if truthy statuses then
    statuses' ← py_get conn "statuses" (VList [VDict []]);
    first ← py_first statuses';
    py_get_none first "status"
  else Ok (VStr "Unknown").

(** The body of the loop of [add_connection_config]. *)
Definition connection_info (conn : value) : result value :=
  name ← py_get_none conn "name";
  api_name ← py_get2 conn "api" "name";
  status ← connection_status conn;
  let conn_info := [("name", name); ("type", api_name); ("status", status)] in
  params ← py_get conn "parameterValues" (VDict []);
  gateway ← py_get_none params "gateway";
  let conn_info :=
    if truthy gateway then dict_set "gateway" gateway conn_info
    else conn_info in
  server ← py_get_none params "server";
  if truthy server then
    server' ← py_get_none params "server";
    database ← py_get_none params "database";
    Ok (VDict (dict_set "database" database
                 (dict_set "sql_server" server' conn_info)))
  else Ok (VDict conn_info).

Definition add_connection_config (service : pydict) (connections : value)
  : result pydict :=
  conns ← py_iter connections;
  infos ← foldM (λ acc conn, info ← connection_info conn; Ok (acc ++ [info]))
            [] conns;
  Ok (dict_set "connections" (VList infos) service).

Definition add_data_gateway_config (service : pydict) (gateway_data : value)
  : result pydict :=
  name ← py_get_none gateway_data "name";
  resource_group ← py_get_none gateway_data "resourceGroup";
  region ← py_get_none gateway_data "location";
  ty ← py_get3 gateway_data "properties" "connectionGatewayInstallation" "name";
  machine ← py_get3 gateway_data "properties" "connectionGatewayInstallation"
              "machineName";
  Ok (dict_set "data_gateway"
        (VDict [("name", name); ("resource_group", resource_group);
                ("region", region); ("type", ty); ("machine_name", machine)])
        service).

(** One element of the [secrets] comprehension. *)
Definition secret_info (s : value) : result value :=
  name ← py_get_none s "name";
  enabled ← py_get_none s "enabled";
  Ok (VDict [("name", name); ("enabled", enabled)]).

Definition add_keyvault_config (service : pydict) (kv_data secrets : value)
  : result pydict :=
  name ← py_get_none kv_data "name";
  resource_group ← py_get_none kv_data "resourceGroup";
  region ← py_get_none kv_data "location";
  sku ← py_get3 kv_data "properties" "sku" "name";
  vault_uri ← py_get2 kv_data "properties" "vaultUri";
  soft_delete ← py_get2 kv_data "properties" "enableSoftDelete";
  purge ← py_get2 kv_data "properties" "enablePurgeProtection";
  items ← py_iter (if truthy secrets then secrets else VList []);
  infos ← foldM (λ acc s, info ← secret_info s; Ok (acc ++ [info])) [] items;
  Ok (dict_set "key_vault"
        (VDict [("name", name); ("resource_group", resource_group);
                ("region", region); ("sku", sku); ("vault_uri", vault_uri);
                ("soft_delete_enabled", soft_delete);
                ("purge_protection", purge); ("secrets", VList infos)])
        service).

Definition add_app_insights_config (service : pydict) (ai_data : value)
  : result pydict :=
  name ← py_get_none ai_data "name";
  resource_group ← py_get_none ai_data "resourceGroup";
  region ← py_get_none ai_data "location";
  ikey ← py_get2 ai_data "properties" "InstrumentationKey";
  conn_string ← py_get2 ai_data "properties" "ConnectionString";
  workspace ← py_get2 ai_data "properties" "WorkspaceResourceId";
  retention ← py_get2 ai_data "properties" "RetentionInDays";
  Ok (dict_set "app_insights"
        (VDict [("name", name); ("resource_group", resource_group);
                ("region", region); ("instrumentation_key", ikey);
                ("connection_string", conn_string);
                ("workspace_id", workspace); ("retention_days", retention)])
        service).

(** [front_door] and [waf] default to [None]. *)
Definition set_shared_infrastructure (cfg : config) (front_door waf : value)
  : config :=
  let shared := shared_infrastructure cfg in
  let shared :=
    if truthy front_door then dict_set "front_door" front_door shared
    else shared in
  let shared :=
    if truthy waf then dict_set "waf" waf shared else shared in
  {| metadata := metadata cfg;
     shared_infrastructure := shared;
     service := service cfg |}.

End ConfigurationAggregator.

Import WorkflowParser.

Local Open Scope nat_scope.

(** * Specification vocabulary *)

(** A legal iteration order for the built-in [set]: each member once. *)
Definition set_order (set_iter : gset string → list string) : Prop :=
  ∀ s, set_iter s ≡ₚ elements s.

(** The [actions] mapping of a workflow definition (empty when absent). *)
Definition input_actions (definition : value) : pydict :=
  match definition with
  | VDict d =>
      match dict_get "actions" d with
      | Some (VDict acts) => acts
      | _ => []
      end
  | _ => []
  end.

(** [depends_on acts a p]: action [a] lists [p] in its [runAfter] mapping. *)
Definition depends_on (acts : pydict) (a p : string) : Prop :=
  a ∈ dict_keys acts ∧ ∃ deps, deps_of acts a = Ok deps ∧ p ∈ deps.

Definition acyclic (acts : pydict) : Prop :=
  ∀ a, ¬ tc (depends_on acts) a a.

Definition predecessors_exist (acts : pydict) : Prop :=
  ∀ a p, depends_on acts a p → p ∈ dict_keys acts.

(** [position l x i]: [x] stands at index [i] of [l]. *)
Definition position (l : list string) (x : string) (i : nat) : Prop :=
  l !! i = Some x.

(** Names emitted one per scan round: each has all its dependencies among
    the names ordered before it. *)
Fixpoint ready_chain (acts : pydict) (ordered emitted : list string) : Prop :=
  match emitted with
  | [] => True
  | n :: e =>
      (∃ deps, deps_of acts n = Ok deps ∧ all_in ordered deps = true)
      ∧ ready_chain acts (ordered ++ [n]) e
  end.

(** The remainder that a stuck scan leaves, listed in the order of the
    input mapping. *)
Definition input_order_remainder (acts : pydict) (emitted : list string)
  : list string :=
  filter (λ k, k ∉ emitted) (dict_keys acts).

(** Executable checks for the two graph hypotheses. *)
Definition deps_list (acts : pydict) (a : string) : list string :=
  match deps_of acts a with
  | Ok deps => deps
  | Raise _ => []
  end.

Definition ranked_by (rank : string → nat) (acts : pydict) : bool :=
  forallb (λ a, forallb (λ p, rank p <? rank a) (deps_list acts a))
    (dict_keys acts).

Definition closed_graph (acts : pydict) : bool :=
  forallb (λ a, forallb (λ p, bool_decide (p ∈ dict_keys acts))
                  (deps_list acts a))
    (dict_keys acts).

(** Index of the first occurrence of [x] in [l] ([length l] if absent). *)
Fixpoint index_of (l : list string) (x : string) : nat :=
  match l with
  | [] => 0
  | y :: l' => if String.eqb x y then 0 else S (index_of l' x)
  end.

(** ** Example inputs *)

(** A set order that differs from insertion order (CPython iterates the
    set of the strings A and B as B, A under [PYTHONHASHSEED=0]). *)
Definition reverse_iter (s : gset string) : list string :=
  reverse (elements s).

Definition succeeded : value := VList [VStr "Succeeded"].

(** The workflow of the module's self-test. *)
Definition sample_workflow : value :=
  VDict [
    ("triggers", VDict [
       ("manual", VDict [("type", VStr "Request"); ("kind", VStr "Http");
                         ("inputs", VDict [("method", VStr "POST")])])]);
    ("actions", VDict [
       ("Parse_Request",
          VDict [("type", VStr "ParseJson"); ("runAfter", VDict [])]);
       ("Execute_Stored_Procedure",
          VDict [("type", VStr "ApiConnection");
                 ("runAfter", VDict [("Parse_Request", succeeded)]);
                 ("inputs", VDict [
                    ("host", VDict [
                       ("apiId", VStr "/providers/Microsoft.PowerApps/apis/sql");
                       ("connection",
                          VDict [("referenceName", VStr "sql-connection")])]);
                    ("path",
                       VStr "/v2/datasets/@{encodeURIComponent()}/procedures/@{encodeURIComponent('sp_GetData')}")])]);
       ("Response",
          VDict [("type", VStr "Response");
                 ("runAfter", VDict [("Execute_Stored_Procedure", succeeded)]);
                 ("inputs", VDict [("statusCode", VInt 200)])])])].

(** Two actions, each listing the other in [runAfter]. *)
Definition cycle_actions : pydict :=
  [("A", VDict [("type", VStr "Compose"); ("runAfter", VDict [("B", succeeded)])]);
   ("B", VDict [("type", VStr "Compose"); ("runAfter", VDict [("A", succeeded)])])].

Definition cycle_definition : value := VDict [("actions", VDict cycle_actions)].

(** A recurrence trigger whose frequency is a number, and an action whose
    host is a string instead of a mapping. *)
Definition bad_frequency_definition : value :=
  VDict [("triggers", VDict [
    ("timer", VDict [("type", VStr "Recurrence");
                     ("recurrence", VDict [("frequency", VInt 5)])])])].

Definition bad_host_action : value :=
  VDict [("type", VStr "ApiConnection");
         ("inputs", VDict [("host", VStr "contoso")])].

Definition bad_host_definition : value :=
  VDict [("actions", VDict [("Call", bad_host_action)])].

(** ** The document, as the specification describes it *)

Definition table_header : list string :=
  ["### Workflow Actions (Execution Order)"; "";
   "| Step | Action | Type | Description | Depends On |";
   "|------|--------|------|-------------|------------|"].

Definition connections_section (conns : list value) : list string :=
  match conns with
  | [] => []
  | _ => "### API Connections" :: map (λ c, "- " +:+ py_str c) conns ++ [""]
  end.

Definition data_sources_section (dss : list DataSource) : list string :=
  match dss with
  | [] => []
  | _ => "### Data Sources" :: map data_source_line dss ++ [""]
  end.

(** Heading, trigger section, action table, then the two optional
    sections. *)
Definition document_lines (parsed : ParsedWorkflow) (title : string)
  : list string :=
  ["## " +:+ title +:+ PyStr.nl; "### Trigger Configuration"]
  ++ map trigger_line (triggers parsed) ++ [""]
  ++ table_header
  ++ map action_row (enumerate 1 (actions parsed)) ++ [""]
  ++ connections_section (connections parsed)
  ++ data_sources_section (data_sources parsed).

(** ** Redaction vocabulary *)

(** The value reached by following a path of keys through nested
    mappings. *)
Fixpoint path_get (path : list string) (v : value) : option value :=
  match path with
  | [] => Some v
  | k :: path' =>
      match v with
      | VDict d =>
          match dict_get k d with
          | Some x => path_get path' x
          | None => None
          end
      | _ => None
      end
  end.

(** An entry [(k, x)] anywhere inside a value, below mappings and lists. *)
Inductive occurs_entry (k : string) (x : value) : value → Prop :=
| occurs_here d : (k, x) ∈ d → occurs_entry k x (VDict d)
| occurs_in_dict d k' v :
    (k', v) ∈ d → occurs_entry k x v → occurs_entry k x (VDict d)
| occurs_in_list l v :
    v ∈ l → occurs_entry k x v → occurs_entry k x (VList l).

(** What the sanitizer stores for the value [x] of a key [k]. *)
Definition sanitized_value (k : string) (x : value) : value :=
  if is_sensitive k then REDACTED
  else match x with
       | VDict _ => VDict (_sanitize_inputs x)
       | _ => x
       end.

Definition secret_in_list : value :=
  VDict [("body", VList [VDict [("password", VStr "hunter2")]])].

Definition nested_secret : value :=
  VDict [("host", VDict [("connection", VDict [("apiKey", VStr "k-123");
                                                ("name", VStr "sql")])]);
         ("retries", VInt 3)].

(** ** Connection vocabulary *)

(** The reference [_extract_connection] finds for the action [name]. *)
Definition reference_of (acts : pydict) (name : string) : value :=
  match _extract_connection (default (VDict []) (dict_get name acts)) with
  | Ok v => v
  | Raise _ => VNone
  end.

(** A reference is a name (a str) or absent. *)
Definition is_name (v : value) : bool :=
  match v with
  | VNone | VStr _ => true
  | _ => false
  end.

Definition name_of (v : value) : option string :=
  match v with
  | VStr s => Some s
  | _ => None
  end.

(** The reference names met along a sequence of actions. *)
Definition reference_names (acts : pydict) (order : list string) : list string :=
  omap (λ n, name_of (reference_of acts n)) order.

(** Each distinct element once, at the place of its first occurrence. *)
Fixpoint first_occurrences (l : list string) : list string :=
  match l with
  | [] => []
  | x :: l' => x :: filter (λ y, y ≠ x) (first_occurrences l')
  end.

Definition empty_reference_definition : value :=
  VDict [("actions", VDict [
    ("Call", VDict [("type", VStr "ApiConnection");
                    ("inputs", VDict [
                       ("host", VDict [
                          ("apiId", VStr "/apis/office365");
                          ("connection",
                             VDict [("referenceName", VStr "")])])])])])].

Definition shared_connection_definition : value :=
  VDict [("actions", VDict [
    ("Read", VDict [("type", VStr "Compose");
                    ("inputs", VDict [("host", VDict [("connection",
                       VDict [("referenceName", VStr "sql")])])])]);
    ("Mail", VDict [("type", VStr "Compose");
                    ("runAfter", VDict [("Read", succeeded)]);
                    ("inputs", VDict [("host", VDict [("connection",
                       VDict [("referenceName", VStr "office365")])])])]);
    ("Write", VDict [("type", VStr "Compose");
                     ("runAfter", VDict [("Mail", succeeded)]);
                     ("inputs", VDict [("host", VDict [("connection",
                       VDict [("referenceName", VStr "sql")])])])])])].

(** The update of [result["connections"]] made for one action, and the
    same on names. *)
Definition conns_step (conns : list value) (c : value) : list value :=
  if truthy c && negb (py_in_list c conns) then conns ++ [c] else conns.

Definition names_step (acc : list string) (s : string) : list string :=
  if bool_decide (s ∈ acc) then acc else acc ++ [s].

(** No entry equals an earlier one under Python's [==]. *)
Definition pairwise_distinct (conns : list value) : Prop :=
  ∀ i j ci cj, i < j → conns !! i = Some ci → conns !! j = Some cj →
               py_eq cj ci = false.

(** ** Backend vocabulary *)

Import ConfigurationAggregator.

(** No occurrence of the character [c]. *)
Fixpoint char_free (c : ascii) (s : string) : bool :=
  match s with
  | EmptyString => true
  | String a s' => negb (Ascii.eqb a c) && char_free c s'
  end.








(** ** Aggregator vocabulary *)

(** The calls that add one category to [self.config["service"]]. *)
Inductive add_call : Type :=
| AddApim (apim_data : value)
| AddApi (api_data : value)
| AddLogicApp (la_data : value)
| AddWorkflow (workflow_def : value) (workflow_name : string)
| AddConnections (connections : value)
| AddDataGateway (gateway_data : value)
| AddKeyVault (kv_data secrets : value)
| AddAppInsights (ai_data : value).

(** The key a call assigns. *)
Definition category (c : add_call) : string :=
  match c with
  | AddApim _ => "apim"
  | AddApi _ => "api"
  | AddLogicApp _ => "logic_app"
  | AddWorkflow _ _ => "workflow"
  | AddConnections _ => "connections"
  | AddDataGateway _ => "data_gateway"
  | AddKeyVault _ _ => "key_vault"
  | AddAppInsights _ => "app_insights"
  end.

Definition run_add (set_iter : gset string → list string) (c : add_call)
    (service : pydict) : result pydict :=
  match c with
  | AddApim d => add_apim_config service d
  | AddApi d => add_api_config service d
  | AddLogicApp d => add_logic_app_config service d
  | AddWorkflow d name => add_workflow_config set_iter service d name
  | AddConnections d => add_connection_config service d
  | AddDataGateway d => add_data_gateway_config service d
  | AddKeyVault d secrets => add_keyvault_config service d secrets
  | AddAppInsights d => add_app_insights_config service d
  end.

(** The key [k] of [d] is missing or holds a mapping. *)
Definition mapping_or_absent (k : string) (d : pydict) : bool :=
  match dict_get k d with
  | None | Some (VDict _) => true
  | Some _ => false
  end.

Definition apim_payload : value :=
  VDict [("name", VStr "apim-prod"); ("location", VStr "southafricanorth");
         ("sku", VDict [("name", VStr "Developer"); ("capacity", VInt 1)])].

(** The key [k1] of [d] is missing, or holds a mapping whose key [k2] is
    missing or holds a mapping. *)
Definition nested_mapping_or_absent (k1 k2 : string) (d : pydict) : bool :=
  match dict_get k1 d with
  | None => true
  | Some (VDict inner) => mapping_or_absent k2 inner
  | Some _ => false
  end.

(** The keys of the entry stored for one connection. *)
Definition connection_keys (gateway server : value) : list string :=
  ["name"; "type"; "status"]
  ++ (if truthy gateway then ["gateway"] else [])
  ++ (if truthy server then ["sql_server"; "database"] else []).

(** What [add_connection_config] stores for the connection [conn]. *)
Definition connection_entry (conn info : value) : Prop :=
  ∃ c p fields,
    conn = VDict c
    ∧ default (VDict []) (dict_get "parameterValues" c) = VDict p
    ∧ info = VDict fields
    ∧ dict_keys fields
      = connection_keys (default VNone (dict_get "gateway" p))
          (default VNone (dict_get "server" p))
    ∧ dict_get "name" fields = Some (default VNone (dict_get "name" c))
    ∧ (truthy (default VNone (dict_get "statuses" c)) = false →
       dict_get "status" fields = Some (VStr "Unknown"))
    ∧ (truthy (default VNone (dict_get "gateway" p)) = true →
       dict_get "gateway" fields = dict_get "gateway" p)
    ∧ (truthy (default VNone (dict_get "server" p)) = true →
       dict_get "sql_server" fields = dict_get "server" p
       ∧ dict_get "database" fields
         = Some (default VNone (dict_get "database" p))).

Definition sql_connection : value :=
  VDict [("name", VStr "sql-onprem");
         ("api", VDict [("name", VStr "sql")]);
         ("statuses", VList [VDict [("status", VStr "Connected")]]);
         ("parameterValues",
            VDict [("server", VStr "db01"); ("database", VStr "orders");
                   ("gateway", VDict [("name", VStr "gw-prod")])])].

Definition vault_secrets : value :=
  VList [VDict [("name", VStr "sql-password"); ("enabled", VBool true);
                ("value", VStr "hunter2")]].

(** The keys of a value that is a mapping. *)
Definition value_keys (v : value) : option (list string) :=
  match v with
  | VDict d => Some (dict_keys d)
  | _ => None
  end.

(** ** Parser vocabulary *)

(** No sensitive key anywhere along the nested mappings of a value. *)
Fixpoint clean (v : value) : bool :=
  match v with
  | VDict d =>
      forallb (λ kv : string * value,
                 negb (is_sensitive kv.1) && clean kv.2) d
  | _ => true
  end.

(** The keys of the dispatch table of [_describe_action]. *)
Definition known_types : list string :=
  ["Response"; "Compose"; "ParseJson"; "Condition"; "ForEach"; "Switch";
   "Scope"; "InitializeVariable"; "SetVariable"; "AppendToArrayVariable";
   "Http"; "ApiConnection"].

(** The [triggers] mapping of a workflow definition (empty when absent). *)
Definition input_triggers (definition : value) : pydict :=
  match definition with
  | VDict d =>
      match dict_get "triggers" d with
      | Some (VDict trigs) => trigs
      | _ => []
      end
  | _ => []
  end.

(** The action that [parse_workflow] reads for a name. *)
Definition action_of (acts : pydict) (name : string) : value :=
  default (VDict []) (dict_get name acts).

(** The data source [_identify_data_source] finds for the action [name]. *)
Definition data_source_of (acts : pydict) (name : string) : option DataSource :=
  match _identify_data_source (action_of acts name) with
  | Ok ds => ds
  | Raise _ => None
  end.

Definition data_source_types : list string :=
  ["SQL Server"; "SharePoint Online"; "Azure Blob Storage"].

(** An entry of the record says what the source action says. *)
Definition action_reflects (acts : pydict) (ai : ActionInfo) : Prop :=
  let action := action_of acts (a_name ai) in
  py_get_none action "type" = Ok (a_type ai)
  ∧ _describe_action action = Ok (a_description ai)
  ∧ (run_after ← py_get action "runAfter" (VDict []); py_keys run_after)
    = Ok (a_run_after ai)
  ∧ ∃ inputs, py_get action "inputs" (VDict []) = Ok inputs
              ∧ a_inputs ai = _sanitize_inputs inputs.

Definition trigger_reflects (item : string * value) (ti : TriggerInfo) : Prop :=
  t_name ti = item.1
  ∧ py_get_none item.2 "type" = Ok (t_type ti)
  ∧ py_get_none item.2 "kind" = Ok (t_kind ti)
  ∧ _describe_trigger item.2 = Ok (t_description ti).

Definition secret_workflow : value :=
  VDict [("actions", VDict [
    ("Call", VDict [("type", VStr "Http");
                    ("inputs", VDict [
                       ("uri", VStr "https://example.org/orders");
                       ("headers", VDict [("x-api-key", VStr "k-123")])])])])].

Definition reply_entry : ActionInfo :=
  {| a_name := "Reply"; a_type := VStr "Response";
     a_description := "Return HTTP 200 response";
     a_run_after := []; a_inputs := [("statusCode", VInt 200)] |}.

Definition one_action_record : ParsedWorkflow :=
  {| triggers := []; actions := [reply_entry]; connections := [];
     data_sources := []; parameters := []; variables := [] |}.

(** ** API and data-source vocabulary *)

(** The keys [add_api_config] always stores. *)
Definition api_base_keys : list string :=
  ["name"; "display_name"; "path"; "service_url"; "protocols";
   "subscription_required"; "api_version"; "operations"].

(** The service URL of an API payload, as the second lookup of
    [add_api_config] reads it. *)
Definition backend_url_of (d : pydict) : value :=
  default (VStr "") (dict_get "serviceUrl" d).

(** The service URLs for which [add_api_config] returns. *)
Definition service_url_accepted (d : pydict) : bool :=
  match dict_get "serviceUrl" d with
  | Some (VInt z) => (z =? 0)%Z
  | Some (VBool b) => negb b
  | Some (VList l) => negb (py_in_list (VStr "azurewebsites.net") l)
  | Some (VDict e) => negb (bool_decide ("azurewebsites.net" ∈ dict_keys e))
  | _ => true
  end.

(** The triggers for which [_describe_trigger] returns. *)
Definition trigger_accepted (t : pydict) : bool :=
  let t_type := default (VStr "Unknown") (dict_get "type" t) in
  if py_eq t_type (VStr "Request") then mapping_or_absent "inputs" t
  else if py_eq t_type (VStr "Recurrence") then
    match default (VDict []) (dict_get "recurrence" t) with
    | VDict rec =>
        match dict_get "frequency" rec with
        | None | Some (VStr _) => true
        | Some _ => false
        end
    | _ => false
    end
  else true.

Definition sql_action : value :=
  VDict [("type", VStr "ApiConnection");
         ("inputs", VDict [
            ("host", VDict [("apiId", VStr "/providers/apis/sql")]);
            ("path", VStr "/datasets/default/procedures/sp_GetData")])].

Definition api_payload : pydict :=
  [("name", VStr "orders-api"); ("path", VStr "orders");
   ("serviceUrl", VStr "https://orders-prod.azurewebsites.net/api")].

(** * Proofs *)

(** ** The error monad *)

Lemma bind_Ok {A B} (m : result A) (f : A → result B) b :
  m ≫= f = Ok b → ∃ a, m = Ok a ∧ f a = Ok b.
Proof. destruct m as [a|e]; simpl; [eauto | discriminate]. Qed.

Ltac inv_bind H :=
  let a := fresh "x" in
  let Ha := fresh "Hx" in
  apply bind_Ok in H as (a & Ha & H).

Lemma all_in_spec ordered deps :
  all_in ordered deps = true ↔ ∀ d, d ∈ deps → d ∈ ordered.
Proof.
  unfold all_in. rewrite forallb_forall. split.
  - intros H d Hd. apply list_elem_of_In in Hd. apply H in Hd.
    by apply bool_decide_eq_true in Hd.
  - intros H d Hd. apply bool_decide_eq_true, H. by apply list_elem_of_In.
Qed.

(** ** The scan of one round *)

Lemma scan_Some acts ordered names n :
  scan acts ordered names = Ok (Some n) →
  n ∈ names ∧ ∃ deps, deps_of acts n = Ok deps ∧ all_in ordered deps = true.
Proof.
  induction names as [|m names IH]; simpl; [discriminate|].
  intros H. inv_bind H. destruct (all_in ordered x) eqn:Hall.
  - injection H as <-. split; [left | eauto].
  - destruct (IH H) as [Hin Hd]. split; [by right | done].
Qed.

Lemma scan_None acts ordered names :
  scan acts ordered names = Ok None →
  ∀ n, n ∈ names →
    ∃ deps, deps_of acts n = Ok deps ∧ all_in ordered deps = false.
Proof.
  induction names as [|m names IH]; simpl; intros H n Hn.
  - by apply elem_of_nil in Hn.
  - inv_bind H. destruct (all_in ordered x) eqn:Hall; [discriminate|].
    apply elem_of_cons in Hn as [->|Hn]; eauto.
Qed.

Lemma scan_stuck acts ordered names :
  (∀ n, n ∈ names →
     ∃ deps, deps_of acts n = Ok deps ∧ all_in ordered deps = false) →
  scan acts ordered names = Ok None.
Proof.
  induction names as [|m names IH]; simpl; intros H; [done|].
  destruct (H m) as (deps & -> & Hall); [left|]. simpl. rewrite Hall.
  apply IH. intros n Hn. apply H. by right.
Qed.

Lemma ready_chain_split acts ordered l1 a l2 :
  ready_chain acts ordered (l1 ++ a :: l2) →
  ∃ deps, deps_of acts a = Ok deps ∧ all_in (ordered ++ l1) deps = true.
Proof.
  revert ordered. induction l1 as [|x l1 IH]; simpl; intros ordered [Hx Hr].
  - by rewrite app_nil_r.
  - apply IH in Hr. by rewrite <- app_assoc in Hr.
Qed.

(** ** The ordering loop *)

Section ordering_facts.

Context (set_iter : gset string → list string).
Hypothesis Hiter : set_order set_iter.

Lemma set_iter_elem s x : x ∈ set_iter s ↔ x ∈ s.
Proof. by rewrite (Hiter s), elem_of_elements. Qed.

Lemma set_iter_NoDup s : NoDup (set_iter s).
Proof. rewrite (Hiter s). apply NoDup_elements. Qed.

(** The fuel of [order_loop] is only a recursion measure: once it covers
    the rounds left under the cap, more fuel changes nothing. *)
Lemma order_loop_fuel acts max fuel extra st :
  iteration st + fuel = max →
  order_loop set_iter acts max (fuel + extra) st
  = order_loop set_iter acts max fuel st.
Proof.
  revert st. induction fuel as [|fuel IH]; intros st Hit.
  - destruct extra as [|extra]; [done|]. simpl.
    assert ((iteration st <? max) = false) as ->
      by (apply Nat.ltb_ge; lia).
    by rewrite andb_false_r.
  - simpl.
    destruct (bool_decide (remaining st ≠ ∅) && (iteration st <? max));
      [|done].
    destruct (scan acts (ordered st) (set_iter (remaining st)))
      as [[name|]|e]; simpl; [apply IH; simpl; lia| |done].
    destruct (bool_decide (remaining st ≠ ∅)); [done|].
    apply IH. simpl. lia.
Qed.

(** What a run of the loop produces: a chain of ready names, then either
    nothing is left, or a scan found nothing and what is left is
    appended in the iteration order of the set. *)
Lemma order_loop_result acts max fuel st st' :
  size (remaining st) ≤ fuel →
  iteration st + fuel = max →
  order_loop set_iter acts max fuel st = Ok st' →
  ∃ emitted rest,
    NoDup emitted
    ∧ (∀ x, x ∈ emitted → x ∈ remaining st)
    ∧ (∀ x, x ∈ rest ↔ x ∈ remaining st ∧ x ∉ emitted)
    ∧ ready_chain acts (ordered st) emitted
    ∧ iteration st' ≤ max
    ∧ ((rest = ∅ ∧ ordered st' = ordered st ++ emitted)
       ∨ (rest ≠ ∅
          ∧ scan acts (ordered st ++ emitted) (set_iter rest) = Ok None
          ∧ ordered st' = ordered st ++ emitted ++ set_iter rest)).
Proof.
  revert st. induction fuel as [|fuel IH]; intros st Hsize Hit Hrun.
  - simpl in Hrun. injection Hrun as <-.
    apply Nat.le_0_r, size_empty_iff in Hsize. apply leibniz_equiv in Hsize.
    exists [], ∅. rewrite app_nil_r. split_and!; try done.
    + apply NoDup_nil_2.
    + intros x Hx. by apply elem_of_nil in Hx.
    + intros x. rewrite Hsize. set_solver.
    + lia.
    + by left.
  - simpl in Hrun.
    destruct (decide (remaining st = ∅)) as [Hempty|Hne].
    { rewrite bool_decide_eq_false_2 in Hrun by (by intros []).
      simpl in Hrun. injection Hrun as <-.
      exists [], ∅. rewrite app_nil_r. split_and!; try done.
      - apply NoDup_nil_2.
      - intros x Hx. by apply elem_of_nil in Hx.
      - intros x. rewrite Hempty. set_solver.
      - lia.
      - by left. }
    rewrite !(bool_decide_eq_true_2 _ Hne) in Hrun.
    assert ((iteration st <? max) = true) as Hlt by (apply Nat.ltb_lt; lia).
    rewrite Hlt in Hrun. simpl in Hrun.
    inv_bind Hrun. destruct x as [name|].
    + apply scan_Some in Hx as (Hin & Hdeps).
      apply set_iter_elem in Hin.
      apply IH in Hrun
        as (emitted & rest & Hnd & Hsub & Hrest & Hchain & Hcap & Hfin);
        simpl in *.
      2:{ rewrite size_difference by set_solver. rewrite size_singleton.
          assert (size (remaining st) ≠ 0).
          { intros Hz. apply size_empty_iff, leibniz_equiv in Hz. done. }
          lia. }
      2:{ lia. }
      exists (name :: emitted), rest. split_and!.
      * apply NoDup_cons. split; [|done].
        intros Hmem. apply Hsub in Hmem. set_solver.
      * intros y [->|Hy]%elem_of_cons; [done|]. apply Hsub in Hy. set_solver.
      * intros x. rewrite Hrest, elem_of_cons. set_solver.
      * done.
      * done.
      * rewrite <- !app_assoc in Hfin. simpl in Hfin. done.
    + injection Hrun as <-.
      simpl. exists [], (remaining st). rewrite app_nil_r. split_and!.
      * apply NoDup_nil_2.
      * intros y Hy. by apply elem_of_nil in Hy.
      * set_solver.
      * done.
      * lia.
      * right. by split_and!.
Qed.

Lemma set_iter_empty : set_iter ∅ = [].
Proof.
  apply Permutation_nil_r. rewrite (Hiter ∅). by rewrite elements_empty.
Qed.

Lemma order_run_result acts st :
  NoDup (dict_keys acts) →
  order_run set_iter (VDict acts) = Ok st →
  ∃ emitted rest,
    NoDup emitted
    ∧ (∀ x, x ∈ emitted → x ∈ dict_keys acts)
    ∧ (∀ x, x ∈ rest ↔ x ∈ dict_keys acts ∧ x ∉ emitted)
    ∧ ready_chain acts [] emitted
    ∧ iteration st ≤ length acts * 2
    ∧ ((rest = ∅ ∧ ordered st = emitted)
       ∨ (rest ≠ ∅
          ∧ scan acts emitted (set_iter rest) = Ok None
          ∧ ordered st = emitted ++ set_iter rest)).
Proof.
  intros Hkeys Hrun. unfold order_run in Hrun. simpl in Hrun.
  apply order_loop_result in Hrun
    as (emitted & rest & Hnd & Hsub & Hrest & Hchain & Hcap & Hfin);
    simpl in *.
  - exists emitted, rest. split_and!; try done.
    + intros x Hx. apply Hsub in Hx. by apply elem_of_list_to_set in Hx.
    + intros x. rewrite Hrest. by rewrite elem_of_list_to_set.
  - rewrite size_list_to_set by done. unfold dict_keys.
    rewrite length_fmap. lia.
  - done.
Qed.

(** Completeness of the ordering: every key once. *)
Lemma order_run_perm acts st :
  NoDup (dict_keys acts) →
  order_run set_iter (VDict acts) = Ok st →
  ordered st ≡ₚ dict_keys acts.
Proof.
  intros Hkeys Hrun.
  destruct (order_run_result _ _ Hkeys Hrun)
    as (emitted & rest & Hnd & Hsub & Hrest & _ & _ & Hfin).
  assert (ordered st = emitted ++ set_iter rest) as ->.
  { destruct Hfin as [[-> ->]|(_ & _ & ->)]; [|done].
    by rewrite set_iter_empty, app_nil_r. }
  apply NoDup_Permutation; [|done|].
  - apply NoDup_app. split_and!; [done| |apply set_iter_NoDup].
    intros x Hx Hx'. apply set_iter_elem, Hrest in Hx'. tauto.
  - intros x. rewrite elem_of_app, set_iter_elem, Hrest.
    destruct (decide (x ∈ emitted)); naive_solver.
Qed.

Lemma scan_total acts ordered names :
  (∀ n, n ∈ names → is_ok (deps_of acts n) = true) →
  ∃ found, scan acts ordered names = Ok found.
Proof.
  induction names as [|m names IH]; simpl; intros Hok; [eauto|].
  pose proof (Hok m (list_elem_of_here _ _)) as Hm.
  destruct (deps_of acts m) as [deps|]; [|done]. simpl.
  destruct (all_in ordered deps); [eauto|].
  apply IH. intros n Hn. apply Hok. by right.
Qed.

(** The loop returns whenever the [runAfter] lookups do: no dependency
    graph, cyclic or dangling, makes it fail. *)
Lemma order_loop_total acts max fuel st :
  (∀ n, n ∈ remaining st → is_ok (deps_of acts n) = true) →
  ∃ st', order_loop set_iter acts max fuel st = Ok st'.
Proof.
  revert st. induction fuel as [|fuel IH]; intros st Hok; simpl; [eauto|].
  destruct (bool_decide (remaining st ≠ ∅) && (iteration st <? max));
    [|eauto].
  destruct (scan_total acts (ordered st) (set_iter (remaining st)))
    as [found ->].
  { intros n Hn. by apply Hok, set_iter_elem. }
  simpl. destruct found as [name|].
  - apply IH. simpl. intros n Hn. apply Hok. set_solver.
  - destruct (bool_decide (remaining st ≠ ∅)); [eauto|]. by apply IH.
Qed.

Lemma order_actions_total acts :
  (∀ n, n ∈ dict_keys acts → is_ok (deps_of acts n) = true) →
  ∃ l, _order_actions set_iter (VDict acts) = Ok l.
Proof.
  intros Hok. unfold _order_actions, order_run. simpl.
  edestruct (order_loop_total acts (length acts * 2) (length acts * 2))
    as [st' ->]; [|simpl; eauto].
  simpl. intros n Hn. apply Hok. by apply elem_of_list_to_set in Hn.
Qed.

(** ** From the ordering to the parsed record *)

Lemma parse_action_names am res l r :
  foldM (parse_action am) res l = Ok r →
  a_name <$> actions r = (a_name <$> actions res) ++ l.
Proof.
  revert res. induction l as [|n l IH]; simpl; intros res H.
  - injection H as <-. by rewrite app_nil_r.
  - inv_bind H. apply IH in H. rewrite H.
    unfold parse_action in Hx. repeat inv_bind Hx. injection Hx as <-.
    simpl. rewrite fmap_app. simpl. by rewrite <- app_assoc.
Qed.

Lemma parse_workflow_names definition r :
  parse_workflow set_iter definition = Ok r →
  ∃ st, order_run set_iter (VDict (input_actions definition)) = Ok st
        ∧ a_name <$> actions r = ordered st.
Proof.
  unfold parse_workflow. intros H.
  destruct (truthy definition) eqn:Htruthy; simpl in H.
  - repeat inv_bind H. apply parse_action_names in H. simpl in H.
    unfold _order_actions in Hx3. inv_bind Hx3. injection Hx3 as <-.
    destruct definition as [| | | | |d]; try discriminate. simpl in *.
    injection Hx2 as <-.
    destruct (dict_get "actions" d) as [[| | | | |acts]|] eqn:Hget;
      simpl in *; try discriminate; eauto.
  - injection H as <-.
    assert (input_actions definition = []) as ->.
    { destruct definition as [| | | | |[|]]; try done. }
    eexists. split; [reflexivity|]. done.
Qed.

End ordering_facts.

(** ** Properties of the parsed action sequence *)

Lemma NoDup_check (l : list string) : bool_decide (NoDup l) = true → NoDup l.
Proof. apply bool_decide_eq_true. Qed.

Lemma all_in_false ordered deps :
  all_in ordered deps = false → ∃ d, d ∈ deps ∧ d ∉ ordered.
Proof.
  induction deps as [|d deps IH]; simpl; [discriminate|].
  destruct (bool_decide (d ∈ ordered)) eqn:Hd; simpl.
  - intros (d' & Hin & Hnot)%IH. exists d'. split; [by right|done].
  - intros _. exists d. split; [left|]. by apply bool_decide_eq_false in Hd.
Qed.

Lemma depends_on_reach_keys acts :
  predecessors_exist acts →
  ∀ a p, tc (depends_on acts) a p → p ∈ dict_keys acts.
Proof. intros Hex a p Htc. induction Htc; eauto. Qed.

(** On an acyclic graph whose predecessors all exist, no scan is stuck. *)
Lemma acyclic_never_stuck acts emitted (rest : gset string) :
  acyclic acts → predecessors_exist acts →
  (∀ x, x ∈ rest ↔ x ∈ dict_keys acts ∧ x ∉ emitted) →
  (∀ n, n ∈ rest →
     ∃ deps, deps_of acts n = Ok deps ∧ all_in emitted deps = false) →
  rest = ∅.
Proof.
  intros Hacyc Hex Hrest Hstuck.
  apply set_eq. intros x. split; [|set_solver]. intros Hx. exfalso.
  assert (sn (depends_on acts) x) as Hsn.
  { apply tc_finite_sn; [exact Hacyc|].
    exists (dict_keys acts). intros y. by apply depends_on_reach_keys. }
  induction Hsn as [x _ IH].
  destruct (Hstuck x Hx) as (deps & Hdeps & Hall).
  apply all_in_false in Hall as (d & Hd & Hnot).
  assert (depends_on acts x d) as Hdep.
  { split; [by apply Hrest in Hx as [? _] | eauto]. }
  apply (IH d); [done|]. apply Hrest. split; [by eapply Hex|done].
Qed.

(** ** When parsing returns *)

Lemma is_ok_bind {A B} (m : result A) (f : A → result B) :
  is_ok (m ≫= f) = true → ∃ a, m = Ok a ∧ is_ok (f a) = true.
Proof. destruct m as [a|e]; simpl; [eauto | discriminate]. Qed.

Lemma dict_get_key acts n :
  n ∈ dict_keys acts → ∃ a, dict_get n acts = Some a.
Proof.
  induction acts as [|[k x] acts IH]; simpl; intros Hn.
  - by apply elem_of_nil in Hn.
  - destruct (String.eqb n k) eqn:Hk; [eauto|].
    apply String.eqb_neq in Hk.
    apply elem_of_cons in Hn as [->|Hn]; [done | by apply IH].
Qed.

(** An action that [parse_action] can classify has a readable [runAfter]. *)
Lemma parse_action_deps_ok acts res n :
  n ∈ dict_keys acts →
  is_ok (parse_action (VDict acts) res n) = true →
  is_ok (deps_of acts n) = true.
Proof.
  intros [a Ha]%dict_get_key Hok. unfold deps_of. rewrite Ha.
  unfold parse_action in Hok. simpl in Hok. rewrite Ha in Hok. simpl in Hok.
  apply is_ok_bind in Hok as (ty & _ & Hok).
  apply is_ok_bind in Hok as (description & _ & Hok).
  apply is_ok_bind in Hok as (run_after & -> & Hok).
  apply is_ok_bind in Hok as (keys & Hkeys & _). simpl. by rewrite Hkeys.
Qed.

Lemma parse_actions_total am res l :
  (∀ n res', n ∈ l → is_ok (parse_action am res' n) = true) →
  ∃ r, foldM (parse_action am) res l = Ok r.
Proof.
  revert res. induction l as [|n l IH]; simpl; intros res Hok; [eauto|].
  pose proof (Hok n res (list_elem_of_here _ _)) as Hn.
  destruct (parse_action am res n) as [res'|]; [|done]. simpl.
  apply IH. intros m res'' Hm. apply Hok. by right.
Qed.

(** Parsing returns for every definition whose triggers and actions can
    each be classified, whatever the dependency graph looks like. *)
Lemma parse_workflow_total set_iter d acts trigs :
  set_order set_iter →
  dict_get "actions" d = Some (VDict acts) →
  NoDup (dict_keys acts) →
  (trigger_map ← py_get (VDict d) "triggers" (VDict []);
   items ← py_items trigger_map;
   foldM parse_trigger [] items) = Ok trigs →
  (∀ n res, n ∈ dict_keys acts →
            is_ok (parse_action (VDict acts) res n) = true) →
  ∃ r, parse_workflow set_iter (VDict d) = Ok r.
Proof.
  intros Hiter Hacts Hkeys Htrigs Hclass.
  assert (truthy (VDict d) = true) as Htruthy by (by destruct d).
  unfold parse_workflow. rewrite Htruthy. simpl negb. cbn match.
  repeat inv_bind Htrigs. rewrite Hx. simpl. rewrite Hx0. simpl.
  rewrite Htrigs. simpl. rewrite Hacts. simpl.
  destruct (order_actions_total set_iter Hiter acts) as [l Hl].
  { intros n Hn. eapply parse_action_deps_ok; [done|].
    by apply (Hclass n empty_result). }
  rewrite Hl. simpl.
  apply parse_actions_total. intros n res' Hn. apply Hclass.
  unfold _order_actions in Hl. inv_bind Hl. injection Hl as <-.
  apply (order_run_perm _ Hiter) in Hx1; [|done]. by rewrite <- Hx1.
Qed.

(** C1. Completeness: the action names of the parsed record are the keys of
    the input [actions] mapping, each exactly once, whatever the shape of
    the dependency graph (the statement has no hypothesis on [runAfter]:
    cycles and dangling predecessors are covered). *)
Theorem parse_actions_complete set_iter definition r :
  set_order set_iter →
  NoDup (dict_keys (input_actions definition)) →
  parse_workflow set_iter definition = Ok r →
  a_name <$> actions r ≡ₚ dict_keys (input_actions definition)
  ∧ length (actions r) = length (input_actions definition)
  ∧ NoDup (a_name <$> actions r).
Proof.
  intros Hiter Hkeys Hparse.
  destruct (parse_workflow_names _ _ _ Hparse) as (st & Hrun & Hnames).
  pose proof (order_run_perm _ Hiter _ _ Hkeys Hrun) as Hperm.
  rewrite <- Hnames in Hperm. split_and!.
  - done.
  - apply Permutation_length in Hperm. unfold dict_keys in Hperm.
    by rewrite !length_fmap in Hperm.
  - by rewrite Hperm.
Qed.

Lemma parse_actions_complete_witness :
  ∃ r, parse_workflow elements sample_workflow = Ok r
       ∧ a_name <$> actions r
         ≡ₚ ["Parse_Request"; "Execute_Stored_Procedure"; "Response"].
Proof.
  destruct (parse_workflow elements sample_workflow) as [r|e] eqn:Hparse;
    [|vm_compute in Hparse; discriminate].
  exists r. split; [done|].
  apply (parse_actions_complete elements sample_workflow r).
  - intros s. reflexivity.
  - apply NoDup_check. vm_compute. reflexivity.
  - exact Hparse.
Defined.

(** C2. Ordering validity: on an acyclic dependency graph whose
    predecessors all name existing actions, every predecessor [p] of an
    action [a] stands strictly before [a] in the parsed action sequence. *)
Theorem parse_respects_run_after set_iter definition r a p :
  set_order set_iter →
  NoDup (dict_keys (input_actions definition)) →
  parse_workflow set_iter definition = Ok r →
  acyclic (input_actions definition) →
  predecessors_exist (input_actions definition) →
  depends_on (input_actions definition) a p →
  ∃ i j, position (a_name <$> actions r) p i
         ∧ position (a_name <$> actions r) a j
         ∧ i < j.
Proof.
  intros Hiter Hkeys Hparse Hacyc Hex Hdep.
  destruct (parse_workflow_names _ _ _ Hparse) as (st & Hrun & Hnames).
  pose proof (order_run_perm _ Hiter _ _ Hkeys Hrun) as Hperm.
  destruct (order_run_result _ Hiter _ _ Hkeys Hrun)
    as (emitted & rest & Hnd & Hsub & Hrest & Hchain & _ & Hfin).
  assert (ordered st = emitted) as Hord.
  { destruct Hfin as [[_ ?]|(Hne & Hscan & _)]; [done|]. exfalso. apply Hne.
    apply (acyclic_never_stuck (input_actions definition) emitted); try done.
    intros n Hn. eapply scan_None; [exact Hscan|].
    by apply (set_iter_elem set_iter Hiter). }
  rewrite Hnames, Hord. rewrite Hord in Hperm.
  destruct Hdep as (Ha & deps & Hdeps & Hp).
  rewrite <- Hperm in Ha. apply list_elem_of_split in Ha as (l1 & l2 & ->).
  apply ready_chain_split in Hchain as (deps' & Hdeps' & Hall). simpl in Hall.
  rewrite Hdeps in Hdeps'. injection Hdeps' as <-.
  rewrite all_in_spec in Hall. apply Hall in Hp.
  apply list_elem_of_lookup in Hp as [i Hi].
  exists i, (length l1). unfold position. split_and!.
  - by apply lookup_app_l_Some.
  - by rewrite list_lookup_middle.
  - by apply lookup_lt_Some in Hi.
Qed.

Lemma forallb_elem {A} (f : A → bool) (l : list A) x :
  forallb f l = true → x ∈ l → f x = true.
Proof.
  intros H Hx. apply list_elem_of_In in Hx. by eapply forallb_forall in H.
Qed.

Lemma depends_on_deps_list acts a p :
  depends_on acts a p → a ∈ dict_keys acts ∧ p ∈ deps_list acts a.
Proof.
  intros (Ha & deps & Hdeps & Hp). unfold deps_list. by rewrite Hdeps.
Qed.

Lemma ranked_by_acyclic rank acts : ranked_by rank acts = true → acyclic acts.
Proof.
  intros Hrank.
  assert (∀ a p, tc (depends_on acts) a p → rank p < rank a) as Hlt.
  { intros a p Htc. induction Htc as [a p Hd|a p q Hd _ IH].
    - apply depends_on_deps_list in Hd as [Ha Hp].
      eapply forallb_elem in Hrank; [|exact Ha].
      eapply forallb_elem in Hrank; [|exact Hp]. by apply Nat.ltb_lt.
    - apply depends_on_deps_list in Hd as [Ha Hp].
      eapply forallb_elem in Hrank; [|exact Ha].
      eapply forallb_elem in Hrank; [|exact Hp].
      apply Nat.ltb_lt in Hrank. lia. }
  intros a Ha. apply Hlt in Ha. lia.
Qed.

Lemma closed_graph_predecessors acts :
  closed_graph acts = true → predecessors_exist acts.
Proof.
  intros Hclosed a p [Ha Hp]%depends_on_deps_list.
  eapply forallb_elem in Hclosed; [|exact Ha].
  eapply forallb_elem in Hclosed; [|exact Hp].
  by apply bool_decide_eq_true in Hclosed.
Qed.

Lemma parse_respects_run_after_witness :
  ∃ r i j,
    parse_workflow reverse_iter sample_workflow = Ok r
    ∧ position (a_name <$> actions r) "Execute_Stored_Procedure" i
    ∧ position (a_name <$> actions r) "Response" j
    ∧ i < j.
Proof.
  destruct (parse_workflow reverse_iter sample_workflow) as [r|e] eqn:Hparse;
    [|vm_compute in Hparse; discriminate].
  destruct (parse_respects_run_after reverse_iter sample_workflow r
              "Response" "Execute_Stored_Procedure") as (i & j & H).
  - intros s. apply reverse_Permutation.
  - apply NoDup_check. vm_compute. reflexivity.
  - exact Hparse.
  - apply (ranked_by_acyclic
             (index_of (dict_keys (input_actions sample_workflow)))).
    vm_compute. reflexivity.
  - apply closed_graph_predecessors. vm_compute. reflexivity.
  - split.
    + simpl. do 2 apply list_elem_of_further. apply list_elem_of_here.
    + exists ["Execute_Stored_Procedure"]. split; [reflexivity|].
      apply list_elem_of_here.
  - exists r, i, j. by split.
Defined.

(** ** Degradation on unresolved graphs *)

Lemma order_loop_stuck set_iter acts max fuel st :
  remaining st ≠ ∅ →
  iteration st < max →
  scan acts (ordered st) (set_iter (remaining st)) = Ok None →
  order_loop set_iter acts max (S fuel) st
  = Ok {| ordered := ordered st ++ set_iter (remaining st);
          remaining := remaining st;
          iteration := S (iteration st) |}.
Proof.
  intros Hne Hlt Hscan. simpl.
  rewrite !(bool_decide_eq_true_2 _ Hne).
  apply Nat.ltb_lt in Hlt. rewrite Hlt. simpl. by rewrite Hscan.
Qed.

(** C5 (as the code has it). The ordering never raises on a dependency
    graph it cannot resolve.  Its result is the chain of names emitted by
    successful scans followed by the whole unresolved remainder (every
    name not emitted, each once), which is left over only when a full scan
    emitted nothing.  The remainder is appended in the iteration order of
    the set [remaining], a permutation of it, and the parsed record lists
    the actions in exactly that sequence. *)
Theorem unresolved_remainder_appended set_iter definition :
  set_order set_iter →
  NoDup (dict_keys (input_actions definition)) →
  (∀ n, n ∈ dict_keys (input_actions definition) →
        is_ok (deps_of (input_actions definition) n) = true) →
  ∃ emitted rest,
    _order_actions set_iter (VDict (input_actions definition))
    = Ok (emitted ++ set_iter rest)
    ∧ (∀ x, x ∈ rest
            ↔ x ∈ dict_keys (input_actions definition) ∧ x ∉ emitted)
    ∧ set_iter rest ≡ₚ input_order_remainder (input_actions definition) emitted
    ∧ ready_chain (input_actions definition) [] emitted
    ∧ (rest ≠ ∅ →
       scan (input_actions definition) emitted (set_iter rest) = Ok None)
    ∧ (∀ r, parse_workflow set_iter definition = Ok r →
            a_name <$> actions r = emitted ++ set_iter rest).
Proof.
  intros Hiter Hkeys Hshape.
  destruct (order_actions_total set_iter Hiter _ Hshape) as [l Hl].
  unfold _order_actions in Hl. inv_bind Hl. injection Hl as <-.
  rename x into st.
  destruct (order_run_result _ Hiter _ _ Hkeys Hx)
    as (emitted & rest & Hnd & Hsub & Hrest & Hchain & _ & Hfin).
  assert (ordered st = emitted ++ set_iter rest ∧
          (rest ≠ ∅ →
           scan (input_actions definition) emitted (set_iter rest) = Ok None))
    as [Hord Hstuck].
  { destruct Hfin as [[-> ->]|(? & ? & ->)]; [|done].
    by rewrite (set_iter_empty _ Hiter), app_nil_r. }
  exists emitted, rest. split_and!; try done.
  - unfold _order_actions. rewrite Hx. simpl. by rewrite Hord.
  - apply NoDup_Permutation.
    + by apply set_iter_NoDup.
    + unfold input_order_remainder. by apply NoDup_filter.
    + intros x. rewrite (set_iter_elem _ Hiter), Hrest.
      unfold input_order_remainder. rewrite list_elem_of_filter. tauto.
  - intros r Hparse.
    destruct (parse_workflow_names _ _ _ Hparse) as (st' & Hrun & ->).
    rewrite Hx in Hrun. by injection Hrun as <-.
Qed.

Lemma unresolved_remainder_appended_witness :
  ∃ emitted rest,
    _order_actions reverse_iter (VDict cycle_actions)
    = Ok (emitted ++ reverse_iter rest)
    ∧ reverse_iter rest ≡ₚ input_order_remainder cycle_actions emitted.
Proof.
  destruct (unresolved_remainder_appended reverse_iter cycle_definition)
    as (emitted & rest & Hrun & _ & Hperm & _).
  - intros s. apply reverse_Permutation.
  - apply NoDup_check. vm_compute. reflexivity.
  - intros n Hn. simpl in Hn.
    apply elem_of_cons in Hn as [->|Hn]; [reflexivity|].
    apply elem_of_cons in Hn as [->|Hn]; [reflexivity|].
    by apply elem_of_nil in Hn.
  - exists emitted, rest. split; [exact Hrun | exact Hperm].
Defined.

(** The property as the specification words it: the remainder comes out in the
    order of the input mapping.  It fails on the two-action cycle as soon
    as the set iterates in another order than the mapping. *)
Lemma remainder_not_in_input_order :
  ¬ (∀ set_iter definition r,
       set_order set_iter →
       NoDup (dict_keys (input_actions definition)) →
       parse_workflow set_iter definition = Ok r →
       ∃ emitted,
         ready_chain (input_actions definition) [] emitted
         ∧ a_name <$> actions r
           = emitted ++ input_order_remainder (input_actions definition) emitted).
Proof.
  intros Hspec.
  destruct (parse_workflow reverse_iter cycle_definition) as [r|e] eqn:Hparse;
    [|vm_compute in Hparse; discriminate].
  destruct (Hspec reverse_iter cycle_definition r) as (emitted & Hchain & Hnames).
  - intros s. apply reverse_Permutation.
  - apply NoDup_check. vm_compute. reflexivity.
  - exact Hparse.
  - vm_compute in Hparse. injection Hparse as <-. simpl in Hnames.
    destruct emitted as [|n emitted].
    + vm_compute in Hnames. discriminate.
    + simpl in Hnames. injection Hnames as <- _.
      destruct Hchain as [(deps & Hdeps & Hall) _].
      vm_compute in Hdeps. injection Hdeps as <-. discriminate.
Qed.

(** C6 (as the code has it). Cycle degradation.  For two actions that
    list each other in [runAfter], the ordering returns after a single scan
    round, within the cap of 2 x 2 rounds; its result holds both names
    exactly once, and it is the iteration order of the two-element set
    [remaining]: fixed once that order is fixed, whatever the order of the
    input mapping.  A parsed record lists the actions in that sequence. *)
Theorem two_cycle_degrades set_iter a b va vb deps_a deps_b :
  set_order set_iter →
  a ≠ b →
  deps_of [(a, va); (b, vb)] a = Ok deps_a → b ∈ deps_a →
  deps_of [(a, va); (b, vb)] b = Ok deps_b → a ∈ deps_b →
  ∃ st,
    order_run set_iter (VDict [(a, va); (b, vb)]) = Ok st
    ∧ iteration st = 1
    ∧ iteration st ≤ 2 * length [(a, va); (b, vb)]
    ∧ ordered st = set_iter (list_to_set [a; b])
    ∧ ordered st ≡ₚ [a; b]
    ∧ NoDup (ordered st)
    ∧ (∀ definition r,
         input_actions definition = [(a, va); (b, vb)] →
         parse_workflow set_iter definition = Ok r →
         a_name <$> actions r = ordered st).
Proof.
  intros Hiter Hab Ha Hba Hb Hab'.
  set (acts := [(a, va); (b, vb)]) in *.
  assert (NoDup [a; b]) as Hnd.
  { apply NoDup_cons. split; [set_solver|]. apply NoDup_singleton. }
  assert (set_iter (list_to_set [a; b]) ≡ₚ [a; b]) as Hperm.
  { rewrite (Hiter _). by apply elements_list_to_set. }
  assert (order_run set_iter (VDict acts)
          = Ok {| ordered := set_iter (list_to_set [a; b]);
                  remaining := list_to_set [a; b];
                  iteration := 1 |}) as Hrun.
  { unfold order_run. simpl py_keys. simpl py_items. cbn [mbind result_bind].
    change (length acts * 2) with (S 3).
    rewrite order_loop_stuck; [done| | |]; cbn [remaining ordered iteration].
    - set_solver.
    - lia.
    - apply scan_stuck. intros n Hn. rewrite Hperm in Hn.
      apply elem_of_cons in Hn as [->|Hn].
      + exists deps_a. split; [done|].
        destruct (all_in [] deps_a) eqn:Hall; [|done].
        rewrite all_in_spec in Hall. apply Hall in Hba.
        by apply elem_of_nil in Hba.
      + apply list_elem_of_singleton in Hn as ->.
        exists deps_b. split; [done|].
        destruct (all_in [] deps_b) eqn:Hall; [|done].
        rewrite all_in_spec in Hall. apply Hall in Hab'.
        by apply elem_of_nil in Hab'. }
  eexists. split; [exact Hrun|]. cbn [ordered iteration]. split_and!.
  - done.
  - simpl. lia.
  - done.
  - done.
  - by rewrite Hperm.
  - intros definition r Hacts Hparse.
    destruct (parse_workflow_names _ _ _ Hparse) as (st' & Hrun' & ->).
    rewrite Hacts in Hrun'. fold acts in Hrun'. rewrite Hrun in Hrun'.
    by injection Hrun' as <-.
Qed.

Lemma two_cycle_degrades_witness :
  ∃ st r,
    order_run reverse_iter (VDict cycle_actions) = Ok st
    ∧ iteration st = 1
    ∧ ordered st ≡ₚ ["A"; "B"]
    ∧ parse_workflow reverse_iter cycle_definition = Ok r
    ∧ a_name <$> actions r = ordered st.
Proof.
  destruct (two_cycle_degrades reverse_iter "A" "B"
              (VDict [("type", VStr "Compose");
                      ("runAfter", VDict [("B", succeeded)])])
              (VDict [("type", VStr "Compose");
                      ("runAfter", VDict [("A", succeeded)])])
              ["B"] ["A"]) as (st & Hrun & Hit & _ & _ & Hperm & _ & Hparse).
  - intros s. apply reverse_Permutation.
  - discriminate.
  - reflexivity.
  - apply list_elem_of_here.
  - reflexivity.
  - apply list_elem_of_here.
  - destruct (parse_workflow reverse_iter cycle_definition) as [r|e] eqn:Hr;
      [|vm_compute in Hr; discriminate].
    exists st, r. split_and!;
      [exact Hrun | exact Hit | exact Hperm | reflexivity |].
    by apply (Hparse cycle_definition r).
Defined.

(** The property as the specification words it: the same definition, so the
    same input iteration order, always gives the same order.  It fails on
    the two-action cycle: two legal orders of the set give the two actions
    in two different orders. *)
Lemma cycle_order_not_fixed_by_input :
  ¬ (∀ set_iter set_iter' a b va vb deps_a deps_b definition r r',
       set_order set_iter → set_order set_iter' →
       a ≠ b →
       deps_of [(a, va); (b, vb)] a = Ok deps_a → b ∈ deps_a →
       deps_of [(a, va); (b, vb)] b = Ok deps_b → a ∈ deps_b →
       input_actions definition = [(a, va); (b, vb)] →
       parse_workflow set_iter definition = Ok r →
       parse_workflow set_iter' definition = Ok r' →
       a_name <$> actions r = a_name <$> actions r').
Proof.
  intros Hspec.
  destruct (parse_workflow elements cycle_definition) as [r|e] eqn:Hr;
    [|vm_compute in Hr; discriminate].
  destruct (parse_workflow reverse_iter cycle_definition) as [r'|e] eqn:Hr';
    [|vm_compute in Hr'; discriminate].
  assert (a_name <$> actions r = a_name <$> actions r') as Hsame.
  { apply (Hspec elements reverse_iter "A" "B"
             (VDict [("type", VStr "Compose");
                     ("runAfter", VDict [("B", succeeded)])])
             (VDict [("type", VStr "Compose");
                     ("runAfter", VDict [("A", succeeded)])])
             ["B"] ["A"] cycle_definition r r').
    - intros s'. reflexivity.
    - intros s'. apply reverse_Permutation.
    - discriminate.
    - reflexivity.
    - apply list_elem_of_here.
    - reflexivity.
    - apply list_elem_of_here.
    - reflexivity.
    - exact Hr.
    - exact Hr'. }
  vm_compute in Hr, Hr'. injection Hr as <-. injection Hr' as <-.
  discriminate Hsame.
Qed.

(** ** Malformed shapes *)

(** C3. The parser does raise on malformed shapes.  A recurrence trigger
    with a numeric frequency and an action whose [host] is a string both
    end in [AttributeError], although [_extract_connection] guards the very
    same [host] lookup with [isinstance] and returns [None]. *)
Theorem malformed_shape_raises :
  (∀ set_iter,
     parse_workflow set_iter bad_frequency_definition = Raise AttributeError)
  ∧ parse_workflow elements bad_host_definition = Raise AttributeError
  ∧ parse_workflow reverse_iter bad_host_definition = Raise AttributeError
  ∧ _describe_action bad_host_action = Raise AttributeError
  ∧ _extract_connection bad_host_action = Ok VNone.
Proof.
  split_and!; [intros set_iter | ..]; by vm_compute.
Qed.

(** ** Rendering *)

Lemma for_each_append {A} (f : A → string) (l : list A) (h : heap) :
  for_each l (λ x, append (f x)) h
  = (tt, {| h_parsed := h_parsed h; h_lines := h_lines h ++ map f l |}).
Proof.
  revert h. induction l as [|x l IH]; intros h; simpl.
  - destruct h. by rewrite app_nil_r.
  - rewrite IH. simpl. by rewrite <- app_assoc.
Qed.

Lemma append_run line h :
  append line h
  = (tt, {| h_parsed := h_parsed h; h_lines := h_lines h ++ [line] |}).
Proof. reflexivity. Qed.

Ltac render_step :=
  first [rewrite append_run | rewrite for_each_append];
  cbn [h_parsed h_lines triggers actions connections data_sources
       length Nat.eqb negb].

(** The imperative rendering computes the document of the specification
    and leaves the record as it found it, whatever [lines] held before. *)
Lemma generate_markdown_m_spec title h :
  generate_markdown_m title h
  = (PyStr.join PyStr.nl (document_lines (h_parsed h) title),
     {| h_parsed := h_parsed h;
        h_lines := document_lines (h_parsed h) title |}).
Proof.
  destruct h as [[trigs acts [|c conns] [|ds dss] params vars] old_lines];
    unfold generate_markdown_m, document_lines, table_header,
      connections_section, data_sources_section;
    unfold mbind, render_bind, mret, render_ret, new_lines, read_parsed,
      join_lines;
    cbn [h_parsed h_lines triggers actions connections data_sources
         length Nat.eqb negb];
    repeat render_step;
    repeat (rewrite <- ?app_assoc; cbn [app]); reflexivity.
Qed.

(** C9. Rendering twice in a row gives the same text both times: the
    second call starts from the heap the first one left, yet returns the
    same document, and neither call changes the record.  The text depends
    on the record and the title only. *)
Theorem render_idempotent (h : heap) (title : string) :
  let first := generate_markdown_m title h in
  let second := generate_markdown_m title first.2 in
  first.1 = second.1
  ∧ h_parsed first.2 = h_parsed h
  ∧ h_parsed second.2 = h_parsed h
  ∧ first.1 = generate_markdown (h_parsed h) title.
Proof.
  cbn zeta. unfold generate_markdown. rewrite !generate_markdown_m_spec.
  cbn [fst snd h_parsed]. done.
Qed.

(** C10. The empty definition parses to the record with all six
    containers empty, and that record renders to the heading, the trigger
    section and the table header alone: no data row, no connections
    section, no data-sources section. *)
Theorem empty_definition_document set_iter title :
  parse_workflow set_iter (VDict []) = Ok empty_result
  ∧ (triggers empty_result = [] ∧ actions empty_result = []
     ∧ connections empty_result = [] ∧ data_sources empty_result = []
     ∧ parameters empty_result = [] ∧ variables empty_result = [])
  ∧ generate_markdown empty_result title
    = PyStr.join PyStr.nl
        ["## " +:+ title +:+ PyStr.nl;
         "### Trigger Configuration";
         "";
         "### Workflow Actions (Execution Order)";
         "";
         "| Step | Action | Type | Description | Depends On |";
         "|------|--------|------|-------------|------------|";
         ""]
  ∧ document_lines empty_result title
    = ["## " +:+ title +:+ PyStr.nl; "### Trigger Configuration"; ""]
      ++ table_header ++ [""]
  ∧ (∀ line, line ∈ document_lines empty_result title →
       line ≠ "### API Connections" ∧ line ≠ "### Data Sources"
       ∧ String.prefix "| 1 |" line = false).
Proof.
  split_and!; try reflexivity.
  intros line Hline. cbn in Hline.
  repeat (apply elem_of_cons in Hline as [->|Hline]); try done.
  by apply elem_of_nil in Hline.
Qed.

(** ** Redaction *)

Lemma sanitize_dict d :
  _sanitize_inputs (VDict d)
  = map (λ kv : string * value, (kv.1, sanitized_value kv.1 kv.2)) d.
Proof.
  simpl. apply map_ext. intros [k x]. unfold sanitized_value. simpl.
  by destruct (is_sensitive k), x.
Qed.

Lemma dict_get_sanitize d k :
  dict_get k (_sanitize_inputs (VDict d)) = sanitized_value k <$> dict_get k d.
Proof.
  rewrite sanitize_dict. induction d as [|[k' x] d IH]; simpl; [done|].
  destruct (String.eqb k k') eqn:Hk; [|done].
  apply String.eqb_eq in Hk as ->. done.
Qed.

Lemma path_get_sanitize path k inputs x :
  path_get (path ++ [k]) inputs = Some x →
  Forall (λ k', is_sensitive k' = false) path →
  path_get (path ++ [k]) (VDict (_sanitize_inputs inputs))
  = Some (sanitized_value k x).
Proof.
  revert inputs. induction path as [|k' path IH]; intros inputs Hget Hpath.
  - simpl in *. destruct inputs as [| | | | |d]; try discriminate.
    rewrite dict_get_sanitize. by destruct (dict_get k d) as [y|]; simplify_eq.
  - apply Forall_cons in Hpath as [Hk' Hpath].
    change ((k' :: path) ++ [k]) with (k' :: (path ++ [k])) in *.
    cbn [path_get] in *. destruct inputs as [| | | | |d]; try discriminate.
    rewrite dict_get_sanitize.
    destruct (dict_get k' d) as [v|]; [|discriminate]. simpl.
    unfold sanitized_value at 1. rewrite Hk'.
    destruct v as [| | | | |d'];
      try (destruct path; simpl in Hget; discriminate).
    by apply IH.
Qed.

(** C4 (as the code has it). A non-mapping input gives the empty mapping.
    A mapping keeps its keys in order, and along every path of
    non-sensitive keys through nested mappings an entry with a sensitive
    key holds the redaction marker, a nested mapping holds its own
    sanitized copy, and every other value, lists included, is unchanged. *)
Theorem sanitize_redacts inputs :
  (is_dict inputs = false → _sanitize_inputs inputs = [])
  ∧ dict_keys (_sanitize_inputs inputs)
    = match inputs with VDict d => dict_keys d | _ => [] end
  ∧ ∀ path k x,
      path_get (path ++ [k]) inputs = Some x →
      Forall (λ k', is_sensitive k' = false) path →
      path_get (path ++ [k]) (VDict (_sanitize_inputs inputs))
      = Some (if is_sensitive k then REDACTED
              else match x with
                   | VDict _ => VDict (_sanitize_inputs x)
                   | _ => x
                   end).
Proof.
  split_and!.
  - by destruct inputs.
  - destruct inputs as [| | | | |d]; try done.
    rewrite sanitize_dict. unfold dict_keys.
    rewrite <- list_fmap_compose. done.
  - intros path k x Hget Hpath. by apply path_get_sanitize.
Qed.

Lemma sanitize_redacts_witness :
  path_get ["host"; "connection"; "apiKey"]
    (VDict (_sanitize_inputs nested_secret)) = Some REDACTED
  ∧ path_get ["host"; "connection"; "name"]
      (VDict (_sanitize_inputs nested_secret)) = Some (VStr "sql").
Proof.
  destruct (sanitize_redacts nested_secret) as (_ & _ & Hpath). split.
  - apply (Hpath ["host"; "connection"] "apiKey" (VStr "k-123")).
    + reflexivity.
    + repeat constructor.
  - apply (Hpath ["host"; "connection"] "name" (VStr "sql")).
    + reflexivity.
    + repeat constructor.
Defined.

(** The property as the specification words it, with entries at any depth
    of the structure: it fails for a mapping that sits inside a list. *)
Lemma secret_inside_list_survives :
  ¬ (∀ inputs k x,
       occurs_entry k x (VDict (_sanitize_inputs inputs)) →
       is_sensitive k = true →
       x = REDACTED).
Proof.
  intros Hspec.
  specialize (Hspec secret_in_list "password" (VStr "hunter2")).
  discriminate Hspec; [|reflexivity].
  eapply occurs_in_dict; [apply list_elem_of_here|].
  eapply occurs_in_list; [apply list_elem_of_here|].
  apply occurs_here, list_elem_of_here.
Qed.

(** ** Connections *)

Lemma parse_action_connections acts res l r :
  foldM (parse_action (VDict acts)) res l = Ok r →
  connections r
  = fold_left conns_step (reference_of acts <$> l) (connections res).
Proof.
  revert res. induction l as [|n l IH]; simpl; intros res H.
  - by injection H as <-.
  - inv_bind H. apply IH in H. rewrite H. f_equal.
    unfold parse_action in Hx. simpl in Hx. repeat inv_bind Hx.
    injection Hx as <-. simpl. unfold reference_of, conns_step.
    by rewrite Hx5.
Qed.

Lemma py_in_list_names s acc :
  py_in_list (VStr s) (VStr <$> acc) = bool_decide (s ∈ acc).
Proof.
  induction acc as [|t acc IH]; [done|].
  unfold py_in_list in *. rewrite fmap_cons.
  change (existsb (py_eq (VStr s)) (VStr t :: (VStr <$> acc)))
    with (String.eqb s t || existsb (py_eq (VStr s)) (VStr <$> acc)).
  rewrite IH. destruct (String.eqb s t) eqn:Hst; simpl.
  - apply String.eqb_eq in Hst as ->. symmetry.
    apply bool_decide_eq_true. left.
  - apply String.eqb_neq in Hst.
    apply bool_decide_ext. set_solver.
Qed.

Lemma conns_fold_names cs acc :
  Forall (λ c, is_name c = true) cs →
  fold_left conns_step cs (VStr <$> acc)
  = VStr <$> fold_left names_step
               (filter (λ s, s ≠ "") (omap name_of cs)) acc.
Proof.
  revert acc. induction cs as [|c cs IH]; intros acc Hcs; [done|].
  apply Forall_cons in Hcs as [Hc Hcs]. simpl.
  destruct c as [| | |s| |]; try discriminate; simpl.
  - by apply IH.
  - unfold conns_step at 2. simpl. rewrite py_in_list_names.
    destruct (decide (s = "")) as [->|Hs].
    + simpl. rewrite filter_cons_False by naive_solver. by apply IH.
    + rewrite filter_cons_True by done. simpl.
      apply String.eqb_neq in Hs. rewrite Hs. simpl.
      unfold names_step at 2.
      destruct (bool_decide (s ∈ acc)); simpl; [by apply IH|].
      rewrite <- IH by done. by rewrite fmap_app.
Qed.

Lemma names_fold_first_occurrences l acc :
  fold_left names_step l acc
  = acc ++ filter (λ y, y ∉ acc) (first_occurrences l).
Proof.
  revert acc. induction l as [|x l IH]; intros acc; simpl.
  - by rewrite app_nil_r.
  - rewrite IH. unfold names_step. case_bool_decide as Hx.
    + rewrite filter_cons_False by naive_solver. f_equal.
      rewrite list_filter_filter. apply list_filter_iff.
      intros y. naive_solver.
    + rewrite filter_cons_True by done. rewrite <- app_assoc. simpl.
      do 2 f_equal. rewrite list_filter_filter. apply list_filter_iff.
      intros y. rewrite elem_of_app, list_elem_of_singleton. tauto.
Qed.

Lemma first_occurrences_NoDup l : NoDup (first_occurrences l).
Proof.
  induction l as [|x l IH]; simpl; [apply NoDup_nil_2|].
  apply NoDup_cons. split; [|by apply NoDup_filter].
  rewrite list_elem_of_filter. tauto.
Qed.

Lemma filter_not_in_nil (l : list string) : filter (λ y, y ∉ []) l = l.
Proof.
  induction l as [|x l IH]; [done|].
  rewrite filter_cons_True by apply not_elem_of_nil. by rewrite IH.
Qed.

Lemma reference_names_fmap acts order :
  omap name_of (reference_of acts <$> order) = reference_names acts order.
Proof.
  unfold reference_names. induction order as [|n order IH]; [done|].
  simpl. destruct (name_of (reference_of acts n)); [f_equal|]; exact IH.
Qed.

Lemma conns_step_distinct conns c :
  pairwise_distinct conns → pairwise_distinct (conns_step conns c).
Proof.
  intros Hd. unfold conns_step.
  destruct (truthy c); simpl; [|done].
  destruct (py_in_list c conns) eqn:Hin; simpl; [done|].
  intros i j ci cj Hij Hi Hj.
  destruct (decide (j < length conns)) as [Hlt|Hge].
  - rewrite lookup_app_l in Hi, Hj by lia. eauto.
  - rewrite lookup_app_r in Hj by lia.
    destruct (j - length conns) as [|k] eqn:Hk; [|by destruct k].
    injection Hj as <-. rewrite lookup_app_l in Hi by lia.
    unfold py_in_list in Hin.
    destruct (py_eq c ci) eqn:Heq; [|done].
    assert (existsb (py_eq c) conns = true) as Hex; [|congruence].
    apply existsb_exists. exists ci. split; [|done].
    apply list_elem_of_In. by eapply list_elem_of_lookup_2.
Qed.

Lemma conns_fold_distinct cs conns :
  pairwise_distinct conns → pairwise_distinct (fold_left conns_step cs conns).
Proof.
  revert conns. induction cs as [|c cs IH]; simpl; intros conns Hd; [done|].
  by apply IH, conns_step_distinct.
Qed.

(** The connections of a parsed record are the fold of the update over
    the references of its actions, in their order. *)
Lemma parse_workflow_connections set_iter definition r :
  parse_workflow set_iter definition = Ok r →
  connections r
  = fold_left conns_step
      (reference_of (input_actions definition) <$> (a_name <$> actions r)) [].
Proof.
  intros Hparse. unfold parse_workflow in Hparse.
  destruct (truthy definition); simpl in Hparse.
  - repeat inv_bind Hparse.
    pose proof (parse_action_names _ _ _ _ Hparse) as Hn. simpl in Hn.
    rewrite Hn.
    unfold _order_actions in Hx3. inv_bind Hx3.
    destruct definition as [| | | | |d]; try discriminate. simpl in *.
    injection Hx2 as <-.
    destruct (dict_get "actions" d) as [[| | | | |acts]|];
      simpl in *; try discriminate.
    + by apply parse_action_connections in Hparse.
    + injection Hx3 as <-. injection Hx4 as <-. simpl in Hparse.
      by injection Hparse as <-.
  - by injection Hparse as <-.
Qed.

(** C7 (as the code has it). The connections of the parsed record hold no
    two entries that are equal.  When the references are names, they are
    the distinct non-empty reference names met along the computed action
    order, each at the place of its first occurrence; an empty reference
    name is not listed. *)
Theorem connections_first_occurrences set_iter definition r :
  parse_workflow set_iter definition = Ok r →
  pairwise_distinct (connections r)
  ∧ (Forall (λ n, is_name (reference_of (input_actions definition) n) = true)
       (a_name <$> actions r) →
     connections r
     = VStr <$> first_occurrences
                  (filter (λ s, s ≠ "")
                     (reference_names (input_actions definition)
                        (a_name <$> actions r)))
     ∧ NoDup (connections r)).
Proof.
  intros Hparse. rewrite (parse_workflow_connections _ _ _ Hparse). split.
  - apply conns_fold_distinct. intros i j ci cj _ Hi. by destruct i.
  - intros Hnames. rewrite (conns_fold_names _ []).
    2:{ apply Forall_fmap. eapply Forall_impl; [exact Hnames|]. done. }
    rewrite names_fold_first_occurrences. simpl.
    rewrite filter_not_in_nil, reference_names_fmap. split; [done|].
    apply NoDup_fmap_2; [|apply first_occurrences_NoDup].
    by intros ?? [=].
Qed.

Lemma connections_first_occurrences_witness :
  ∃ r, parse_workflow elements shared_connection_definition = Ok r
       ∧ a_name <$> actions r = ["Read"; "Mail"; "Write"]
       ∧ connections r = [VStr "sql"; VStr "office365"].
Proof.
  destruct (parse_workflow elements shared_connection_definition)
    as [r|e] eqn:Hparse; [|vm_compute in Hparse; discriminate].
  destruct (connections_first_occurrences elements
              shared_connection_definition r Hparse) as [_ Hconns].
  destruct Hconns as [Hconns _].
  - vm_compute in Hparse. injection Hparse as <-. simpl.
    repeat constructor.
  - exists r. split; [done|]. rewrite Hconns.
    vm_compute in Hparse. injection Hparse as <-. split; reflexivity.
Defined.

(** The property as the specification words it, with every reference name
    listed: it fails for the empty name, which the truthiness test in
    [parse_workflow] skips. *)
Lemma empty_reference_not_listed :
  ¬ (∀ set_iter definition r,
       set_order set_iter →
       parse_workflow set_iter definition = Ok r →
       Forall (λ n, is_name (reference_of (input_actions definition) n) = true)
         (a_name <$> actions r) →
       connections r
       = VStr <$> first_occurrences
                    (reference_names (input_actions definition)
                       (a_name <$> actions r))).
Proof.
  intros Hspec.
  destruct (parse_workflow elements empty_reference_definition)
    as [r|e] eqn:Hparse; [|vm_compute in Hparse; discriminate].
  specialize (Hspec elements empty_reference_definition r).
  vm_compute in Hparse. injection Hparse as <-.
  discriminate Hspec.
  - intros s. reflexivity.
  - by vm_compute.
  - repeat constructor.
Qed.

(** ** Backend inference *)

Lemma prefix_app l s : String.prefix l s = true ↔ ∃ r, s = l +:+ r.
Proof.
  revert s. induction l as [|a l IH]; intros [|b s]; simpl.
  - split; [by exists ""|done].
  - split; [by eexists|done].
  - split; [done|]. by intros [r ?].
  - destruct (ascii_dec a b) as [->|Hab].
    + rewrite IH. split.
      * intros [r ->]. by exists r.
      * intros [r [= ->]]. by exists r.
    + split; [done|]. intros [r [= ? ?]]. done.
Qed.

Lemma append_cons a x y : String a x +:+ y = String a (x +:+ y).
Proof. reflexivity. Qed.

Lemma append_nil y : "" +:+ y = y.
Proof. reflexivity. Qed.






Lemma contains_prefix sub s :
  String.prefix sub s = true → PyStr.contains sub s = true.
Proof. intros H. destruct s; cbn [PyStr.contains]; by rewrite H. Qed.

Lemma contains_app sub pre post :
  PyStr.contains sub (pre +:+ sub +:+ post) = true.
Proof.
  induction pre as [|a pre IH].
  - rewrite append_nil. apply contains_prefix, prefix_app. eauto.
  - rewrite append_cons. cbn [PyStr.contains]. rewrite IH. apply orb_true_r.
Qed.




Lemma re_search_sound p s gs :
  re_search p s = Some gs →
  ∃ pre post, s = pre +:+ post ∧ match_here p post = Some gs.
Proof.
  induction s as [|a s IH]; simpl.
  - destruct (match_here p "") eqn:Hm; [|done].
    intros [= <-]. by exists "", "".
  - destruct (match_here p (String a s)) eqn:Hm.
    + intros [= <-]. by exists "", (String a s).
    + intros (pre & post & -> & ?)%IH. by exists (String a pre), post.
Qed.










(** * Further properties of the collector *)

(** ** Assignment and lookup in a dict *)

Lemma dict_get_set_eq k v d : dict_get k (dict_set k v d) = Some v.
Proof.
  induction d as [|[k' x] d IH]; cbn [dict_set dict_get].
  - by rewrite String.eqb_refl.
  - destruct (String.eqb k k') eqn:Hk; cbn [dict_get].
    + by rewrite String.eqb_refl.
    + by rewrite Hk.
Qed.

Lemma dict_get_set_ne k k' v d :
  k ≠ k' → dict_get k' (dict_set k v d) = dict_get k' d.
Proof.
  intros Hne. induction d as [|[k0 x] d IH]; cbn [dict_set dict_get].
  - apply not_eq_sym, String.eqb_neq in Hne. by rewrite Hne.
  - destruct (String.eqb k k0) eqn:Hk; cbn [dict_get].
    + apply String.eqb_eq in Hk as <-.
      apply not_eq_sym, String.eqb_neq in Hne. by rewrite Hne.
    + by rewrite IH.
Qed.

Lemma dict_keys_set k v d :
  dict_keys (dict_set k v d)
  = if bool_decide (k ∈ dict_keys d) then dict_keys d else dict_keys d ++ [k].
Proof.
  unfold dict_keys. induction d as [|[k' x] d IH]; cbn [dict_set]; [done|].
  destruct (String.eqb k k') eqn:Hk.
  - apply String.eqb_eq in Hk as <-. rewrite bool_decide_eq_true_2; [done|].
    rewrite fmap_cons. left.
  - apply String.eqb_neq in Hk. rewrite !fmap_cons, IH. cbn [fst].
    destruct (decide (k ∈ d.*1)) as [Hin|Hin].
    + rewrite !bool_decide_eq_true_2; [done| |done]. by right.
    + rewrite !bool_decide_eq_false_2; [done| |done].
      intros [?|?]%elem_of_cons; done.
Qed.

Lemma dict_set_set k v w d : dict_set k w (dict_set k v d) = dict_set k w d.
Proof.
  induction d as [|[k' x] d IH]; cbn [dict_set].
  - by rewrite String.eqb_refl.
  - destruct (String.eqb k k') eqn:Hk; cbn [dict_set].
    + by rewrite String.eqb_refl.
    + by rewrite Hk, IH.
Qed.

(** ** The category operations *)

(** Every call computes one record from its payload alone and then assigns
    it to its own key: on two mappings it raises the same exception or
    stores the same record. *)
Lemma run_add_uniform set_iter c s1 s2 :
  match run_add set_iter c s1, run_add set_iter c s2 with
  | Ok a, Ok b =>
      ∃ record, a = dict_set (category c) record s1
                ∧ b = dict_set (category c) record s2
  | Raise e1, Raise e2 => e1 = e2
  | _, _ => False
  end.
Proof.
  destruct c; cbn [run_add category];
    unfold add_apim_config, add_api_config, add_logic_app_config,
      add_workflow_config, add_connection_config, add_data_gateway_config,
      add_keyvault_config, add_app_insights_config;
    repeat (lazymatch goal with
            | |- match mbind _ ?m with Ok _ => _ | Raise _ => _ end =>
                destruct m; cbn [mbind result_bind]
            | |- match (if truthy ?v then _ else _) with
                 | Ok _ => _ | Raise _ => _ end =>
                destruct (truthy v)
            end);
    try done; eauto.
Qed.

Lemma run_add_assigns set_iter c service service' :
  run_add set_iter c service = Ok service' →
  ∃ record,
    service' = dict_set (category c) record service
    ∧ ∀ other, run_add set_iter c other
               = Ok (dict_set (category c) record other).
Proof.
  intros H. pose proof (run_add_uniform set_iter c service service) as Hs.
  rewrite H in Hs. destruct Hs as (record & -> & _).
  exists record. split; [done|]. intros other.
  pose proof (run_add_uniform set_iter c service other) as Ho.
  rewrite H in Ho. destruct (run_add set_iter c other); [|done].
  destruct Ho as (record' & Heq & ->). f_equal. f_equal.
  apply (f_equal (dict_get (category c))) in Heq.
  rewrite !dict_get_set_eq in Heq. by injection Heq.
Qed.

(** X1. Categories are independent: a call that returns stores a record
    under its own key, leaves the record of every other key as it was, and
    keeps the order of the keys, adding its own at the end when new. *)
Theorem add_call_frame set_iter c service service' :
  run_add set_iter c service = Ok service' →
  is_Some (dict_get (category c) service')
  ∧ (∀ k, k ≠ category c → dict_get k service' = dict_get k service)
  ∧ dict_keys service'
    = (if bool_decide (category c ∈ dict_keys service) then dict_keys service
       else dict_keys service ++ [category c]).
Proof.
  intros (record & -> & _)%run_add_assigns. split_and!.
  - rewrite dict_get_set_eq. eauto.
  - intros k Hk. by apply dict_get_set_ne.
  - apply dict_keys_set.
Qed.

Lemma add_call_frame_witness :
  ∃ service',
    run_add elements (AddApim apim_payload)
      [("api", VDict [("name", VStr "orders")])] = Ok service'
    ∧ dict_get "api" service' = Some (VDict [("name", VStr "orders")])
    ∧ dict_keys service' = ["api"; "apim"].
Proof.
  destruct (run_add elements (AddApim apim_payload)
              [("api", VDict [("name", VStr "orders")])])
    as [service'|e] eqn:Hrun; [|vm_compute in Hrun; discriminate].
  destruct (add_call_frame _ _ _ _ Hrun) as (_ & Hother & Hkeys).
  exists service'. split_and!; [done| |].
  - rewrite (Hother "api"); [reflexivity|discriminate].
  - rewrite Hkeys. reflexivity.
Defined.

(** X2. A category holds what the last call for it stored: a second call
    for the same category gives the same mapping as if the first had never
    been made, and repeating a call changes nothing. *)
Theorem add_call_overwrites set_iter c c' service service1 :
  run_add set_iter c service = Ok service1 →
  category c' = category c →
  run_add set_iter c' service1 = run_add set_iter c' service
  ∧ run_add set_iter c service1 = Ok service1.
Proof.
  intros Hrun Hcat.
  destruct (run_add_assigns _ _ _ _ Hrun) as (record & -> & Hany). split.
  - pose proof (run_add_uniform set_iter c'
                  (dict_set (category c) record service) service) as Hu.
    destruct (run_add set_iter c' (dict_set (category c) record service)),
      (run_add set_iter c' service); try done.
    + destruct Hu as (record' & -> & ->). by rewrite Hcat, dict_set_set.
    + by rewrite Hu.
  - rewrite Hany. by rewrite dict_set_set.
Qed.

Lemma add_call_overwrites_witness :
  ∃ service1,
    run_add elements (AddApim (VDict [])) [] = Ok service1
    ∧ run_add elements (AddApim apim_payload) service1
      = run_add elements (AddApim apim_payload) [].
Proof.
  destruct (run_add elements (AddApim (VDict [])) []) as [service1|e] eqn:Hrun;
    [|vm_compute in Hrun; discriminate].
  exists service1. split; [done|].
  destruct (add_call_overwrites elements (AddApim (VDict []))
              (AddApim apim_payload) [] service1 Hrun eq_refl) as [H _].
  exact H.
Defined.

(** X3. Which payloads the field-mapping operations accept.  A lookup
    written [.get(k, {}).get(...)] fails when the key is present without
    holding a mapping, a JSON null included, so a mapping payload is
    accepted exactly when each such key is missing or holds a mapping. *)
Theorem field_mapping_accepts service d :
  is_ok (add_apim_config service (VDict d))
  = mapping_or_absent "sku" d && mapping_or_absent "identity" d
  ∧ is_ok (add_logic_app_config service (VDict d)) = true
  ∧ is_ok (add_data_gateway_config service (VDict d))
    = nested_mapping_or_absent "properties" "connectionGatewayInstallation" d
  ∧ is_ok (add_app_insights_config service (VDict d))
    = mapping_or_absent "properties" d
  ∧ is_ok (add_keyvault_config service (VDict d) VNone)
    = nested_mapping_or_absent "properties" "sku" d.
Proof.
  unfold add_apim_config, add_logic_app_config, add_data_gateway_config,
    add_app_insights_config, add_keyvault_config, py_get2, py_get3,
    py_get_none, nested_mapping_or_absent, mapping_or_absent.
  split_and!.
  - simpl. destruct (dict_get "sku" d) as [[]|];
      destruct (dict_get "identity" d) as [[]|]; reflexivity.
  - reflexivity.
  - simpl. destruct (dict_get "properties" d) as [[| | | | |pr]|];
      try reflexivity.
    simpl. destruct (dict_get "connectionGatewayInstallation" pr) as [[]|];
      reflexivity.
  - simpl. destruct (dict_get "properties" d) as [[]|]; reflexivity.
  - simpl. destruct (dict_get "properties" d) as [[| | | | |pr]|];
      try reflexivity.
    simpl. destruct (dict_get "sku" pr) as [[]|]; reflexivity.
Qed.

(** X4. A payload that is not a mapping makes every field-mapping
    operation raise [AttributeError], whatever the aggregate holds. *)
Theorem non_mapping_payload_raises service v secrets :
  is_dict v = false →
  add_apim_config service v = Raise AttributeError
  ∧ add_api_config service v = Raise AttributeError
  ∧ add_logic_app_config service v = Raise AttributeError
  ∧ add_data_gateway_config service v = Raise AttributeError
  ∧ add_keyvault_config service v secrets = Raise AttributeError
  ∧ add_app_insights_config service v = Raise AttributeError.
Proof. by destruct v. Qed.

Lemma non_mapping_payload_raises_witness :
  add_apim_config [] VNone = Raise AttributeError.
Proof.
  destruct (non_mapping_payload_raises [] VNone VNone) as [H _];
    [reflexivity | exact H].
Defined.

(** A loop that appends one computed item per element. *)
Lemma foldM_collect {A} (f : A → result value) (l : list A) acc r :
  foldM (λ acc x, info ← f x; Ok (acc ++ [info])) acc l = Ok r →
  ∃ infos, r = acc ++ infos ∧ Forall2 (λ x info, f x = Ok info) l infos.
Proof.
  revert acc. induction l as [|x l IH]; simpl; intros acc H.
  - injection H as <-. exists []. by rewrite app_nil_r.
  - inv_bind H. inv_bind Hx. injection Hx as <-.
    apply IH in H as (infos & -> & Hall).
    exists (x1 :: infos). rewrite <- app_assoc. split; [done|].
    by constructor.
Qed.

(** X5. Only the name and the enabled flag of a secret reach the
    aggregate: every stored secret has exactly these two keys, one entry
    per secret in the order given, and none when [secrets] is [None] or
    empty. *)
Theorem keyvault_secrets_projected service kv secrets service' :
  add_keyvault_config service kv secrets = Ok service' →
  ∃ record stored,
    dict_get "key_vault" service' = Some (VDict record)
    ∧ dict_get "secrets" record = Some (VList stored)
    ∧ Forall (λ s, value_keys s = Some ["name"; "enabled"]) stored
    ∧ (truthy secrets = false → stored = [])
    ∧ (∀ l, secrets = VList l →
         Forall2 (λ s info, secret_info s = Ok info) l stored).
Proof.
  unfold add_keyvault_config. intros H. repeat inv_bind H.
  injection H as <-.
  apply foldM_collect in Hx7 as (stored & -> & Hall). simpl app.
  eexists _, stored. split_and!.
  - apply dict_get_set_eq.
  - reflexivity.
  - clear -Hall. induction Hall as [|s info l stored Hs _ IH]; [done|].
    constructor; [|done].
    unfold secret_info in Hs. repeat inv_bind Hs. by injection Hs as <-.
  - intros Hfalsy. rewrite Hfalsy in Hx6. injection Hx6 as <-.
    by inversion Hall.
  - intros l ->. destruct l as [|s l]; simpl in Hx6; by injection Hx6 as <-.
Qed.

Lemma keyvault_secrets_projected_witness :
  ∃ service',
    add_keyvault_config [] (VDict [("name", VStr "kv-prod")]) vault_secrets
    = Ok service'
    ∧ path_get ["key_vault"; "secrets"] (VDict service')
      = Some (VList [VDict [("name", VStr "sql-password");
                            ("enabled", VBool true)]]).
Proof.
  destruct (add_keyvault_config [] (VDict [("name", VStr "kv-prod")])
              vault_secrets) as [service'|e] eqn:Hrun;
    [|vm_compute in Hrun; discriminate].
  destruct (keyvault_secrets_projected _ _ _ _ Hrun)
    as (record & stored & Hkv & Hsecrets & _ & _ & Hlist).
  exists service'. split; [done|].
  cbn [path_get]. rewrite Hkv, Hsecrets. do 2 f_equal.
  specialize (Hlist _ eq_refl).
  inversion Hlist as [|s info l stored' Hs Hrest]; subst.
  inversion Hrest; subst. vm_compute in Hs. by injection Hs as <-.
Defined.

(** X6. [add_connection_config] on a list stores one entry per connection,
    in order.  Each entry always holds the keys name, type and status; the
    gateway key is added exactly when a truthy gateway parameter exists,
    and the two SQL keys come together, exactly when a truthy server
    parameter exists; the status is [Unknown] when no status is given. *)
Theorem connection_entries service conns service' :
  add_connection_config service (VList conns) = Ok service' →
  ∃ infos,
    dict_get "connections" service' = Some (VList infos)
    ∧ Forall2 connection_entry conns infos.
Proof.
  unfold add_connection_config. intros H. simpl in H. repeat inv_bind H.
  injection H as <-.
  apply foldM_collect in Hx as (infos & -> & Hall). simpl app.
  exists infos. split; [apply dict_get_set_eq|].
  eapply Forall2_impl; [exact Hall|]. clear. intros conn info H.
  unfold connection_info, connection_status, py_get2, py_get_none in H.
  destruct conn as [| | | | |c]; try discriminate. simpl in H.
  inv_bind H. inv_bind H.
  destruct (default (VDict []) (dict_get "parameterValues" c))
    as [| | | | |p] eqn:Hp; try discriminate.
  simpl in H. exists c, p. unfold connection_keys.
  destruct (truthy (default VNone (dict_get "server" p))) eqn:Hs;
    destruct (truthy (default VNone (dict_get "gateway" p))) eqn:Hg;
    simpl in H; injection H as <-;
    (eexists; split_and!; [reflexivity|exact Hp|reflexivity|reflexivity
                          |reflexivity| | |]);
    try done.
  all: try (intros Hst; rewrite Hst in Hx0; by injection Hx0 as <-).
  all: try (intros _; simpl;
            destruct (dict_get "gateway" p); [reflexivity|discriminate]).
  all: try (intros _; simpl;
            destruct (dict_get "server" p); [done|discriminate]).
Qed.

Lemma connection_entries_witness :
  ∃ service' info,
    add_connection_config [] (VList [sql_connection]) = Ok service'
    ∧ dict_get "connections" service' = Some (VList [info])
    ∧ value_keys info
      = Some ["name"; "type"; "status"; "gateway"; "sql_server"; "database"].
Proof.
  destruct (add_connection_config [] (VList [sql_connection]))
    as [service'|e] eqn:Hrun; [|vm_compute in Hrun; discriminate].
  destruct (connection_entries _ _ _ Hrun) as (infos & Hget & Hall).
  inversion Hall as [|conn info l infos' Hentry Hrest]; subst.
  inversion Hrest; subst.
  exists service', info. split_and!; [done|done|].
  destruct Hentry as (c & p & fields & [= <-] & [= <-] & -> & Hkeys & _).
  simpl. by rewrite Hkeys.
Defined.

(** ** Metadata and shared infrastructure *)

Lemma dict_set_key k v d : k ∈ dict_keys (dict_set k v d).
Proof. rewrite dict_keys_set. case_bool_decide; set_solver. Qed.

Lemma dict_set_keeps_key k k' v d :
  k ∈ dict_keys d → k ∈ dict_keys (dict_set k' v d).
Proof. rewrite dict_keys_set. case_bool_decide; set_solver. Qed.

(** Two assignments commute as soon as one of the keys is present. *)
Lemma dict_set_comm k k' v w d :
  k ≠ k' → k ∈ dict_keys d →
  dict_set k v (dict_set k' w d) = dict_set k' w (dict_set k v d).
Proof.
  intros Hne. induction d as [|[k0 x] d IH]; intros Hin.
  - by apply elem_of_nil in Hin.
  - cbn [dict_set].
    destruct (String.eqb k k0) eqn:Hk, (String.eqb k' k0) eqn:Hk';
      cbn [dict_set]; rewrite ?Hk, ?Hk'.
    + apply String.eqb_eq in Hk, Hk'. congruence.
    + apply String.eqb_eq in Hk as ->.
      apply not_eq_sym, String.eqb_neq in Hne. by rewrite Hne.
    + apply String.eqb_eq in Hk' as ->.
      apply String.eqb_neq in Hne. by rewrite Hne.
    + f_equal. apply IH. apply String.eqb_neq in Hk.
      unfold dict_keys in Hin. rewrite fmap_cons in Hin.
      by apply elem_of_cons in Hin as [?|?].
Qed.

(** X7. [set_metadata] stores its three arguments, keeps every other
    metadata entry (the collection date and the version among them) and
    leaves the rest of the tree alone; of two calls only the second
    counts. *)
Theorem set_metadata_lookup cfg a b c a' b' c' :
  let cfg' := set_metadata cfg a b c in
  dict_get "service_name" (metadata cfg') = Some a
  ∧ dict_get "environment" (metadata cfg') = Some b
  ∧ dict_get "subscription" (metadata cfg') = Some c
  ∧ (∀ k, k ∉ ["service_name"; "environment"; "subscription"] →
          dict_get k (metadata cfg') = dict_get k (metadata cfg))
  ∧ shared_infrastructure cfg' = shared_infrastructure cfg
  ∧ service cfg' = service cfg
  ∧ set_metadata cfg' a' b' c' = set_metadata cfg a' b' c'.
Proof.
  cbn zeta. unfold set_metadata, dict_update. cbn [metadata fold_left
    shared_infrastructure service fst snd]. split_and!; try reflexivity.
  - rewrite !dict_get_set_ne by discriminate. apply dict_get_set_eq.
  - rewrite dict_get_set_ne by discriminate. apply dict_get_set_eq.
  - apply dict_get_set_eq.
  - intros k Hk. rewrite !dict_get_set_ne; [done|set_solver..].
  - f_equal.
    set (m := metadata cfg).
    rewrite (dict_set_comm "service_name" "subscription");
      [|discriminate|apply dict_set_keeps_key, dict_set_key].
    rewrite (dict_set_comm "service_name" "environment");
      [|discriminate|apply dict_set_key].
    rewrite dict_set_set.
    rewrite (dict_set_comm "environment" "subscription");
      [|discriminate|apply dict_set_key].
    rewrite dict_set_set. by rewrite dict_set_set.
Qed.

(** X8. [set_shared_infrastructure] stores an argument only when it is
    truthy: [None] or an empty mapping leaves the entry that is there, so
    a call with two falsy arguments changes nothing, and no call touches
    another key. *)
Theorem set_shared_infrastructure_keeps cfg front_door waf :
  let cfg' := set_shared_infrastructure cfg front_door waf in
  dict_get "front_door" (shared_infrastructure cfg')
  = (if truthy front_door then Some front_door
     else dict_get "front_door" (shared_infrastructure cfg))
  ∧ dict_get "waf" (shared_infrastructure cfg')
    = (if truthy waf then Some waf
       else dict_get "waf" (shared_infrastructure cfg))
  ∧ (∀ k, k ∉ ["front_door"; "waf"] →
          dict_get k (shared_infrastructure cfg')
          = dict_get k (shared_infrastructure cfg))
  ∧ metadata cfg' = metadata cfg
  ∧ service cfg' = service cfg
  ∧ (truthy front_door = false → truthy waf = false → cfg' = cfg).
Proof.
  cbn zeta. unfold set_shared_infrastructure.
  cbn [shared_infrastructure metadata service].
  destruct (truthy front_door), (truthy waf); split_and!; try reflexivity;
    try done.
  all: try (rewrite ?dict_get_set_ne by discriminate; apply dict_get_set_eq).
  all: try (by rewrite dict_get_set_ne by discriminate).
  all: try (intros k Hk; rewrite ?dict_get_set_ne; [done|set_solver..]).
  intros _ _. by destruct cfg.
Qed.

(** ** The sanitizer, again *)

(** Induction on values that reaches the items of lists and mappings. *)
Lemma value_nested_ind (P : value → Prop) :
  P VNone → (∀ b, P (VBool b)) → (∀ z, P (VInt z)) → (∀ s, P (VStr s)) →
  (∀ l, Forall P l → P (VList l)) →
  (∀ d, Forall (λ kv, P kv.2) d → P (VDict d)) →
  ∀ v, P v.
Proof.
  intros HN HB HI HS HL HD. fix IH 1. intros [|b|z|s|l|d].
  - exact HN.
  - apply HB.
  - apply HI.
  - apply HS.
  - apply HL. induction l as [|x l IHl]; constructor; [apply IH|exact IHl].
  - apply HD. induction d as [|[k x] d IHd]; constructor;
      [apply IH|exact IHd].
Qed.

(** X9. Sanitizing is idempotent: sanitizing a sanitized mapping gives it
    back unchanged. *)
Theorem sanitize_idempotent inputs :
  _sanitize_inputs (VDict (_sanitize_inputs inputs)) = _sanitize_inputs inputs.
Proof.
  induction inputs as [| | | | |d IH] using value_nested_ind; try reflexivity.
  rewrite !sanitize_dict, map_map.
  induction IH as [|[k x] d Hx _ IHd]; [done|].
  cbn [map fst snd]. f_equal; [|exact IHd]. f_equal.
  unfold sanitized_value. destruct (is_sensitive k) eqn:Hk; [done|].
  destruct x; try done. simpl in Hx. cbn [snd] in Hx.
  by rewrite <- Hx at 2.
Qed.

(** X10. A mapping without any sensitive key along its nested mappings is
    returned as it is. *)
Theorem sanitize_clean_unchanged d :
  clean (VDict d) = true → _sanitize_inputs (VDict d) = d.
Proof.
  revert d.
  assert (∀ v, clean v = true →
               match v with
               | VDict d => _sanitize_inputs v = d
               | _ => True
               end) as Hv.
  { induction v as [| | | | |d IH] using value_nested_ind; try done.
    intros Hclean. rewrite sanitize_dict. cbn [clean] in Hclean.
    induction IH as [|[k x] d Hx _ IHd]; [done|].
    cbn [forallb fst snd] in Hclean.
    apply andb_true_iff in Hclean as [Hkx Hrest].
    apply andb_true_iff in Hkx as [Hk Hcx].
    cbn [map fst snd]. f_equal; [|by apply IHd]. f_equal.
    unfold sanitized_value. apply negb_true_iff in Hk. rewrite Hk.
    cbn [snd] in Hx. specialize (Hx Hcx). destruct x; try done.
    by rewrite Hx. }
  intros d Hclean. exact (Hv (VDict d) Hclean).
Qed.

Lemma sanitize_clean_unchanged_witness :
  _sanitize_inputs
    (VDict [("statusCode", VInt 200);
            ("body", VDict [("rows", VList [VInt 1; VInt 2])])])
  = [("statusCode", VInt 200);
     ("body", VDict [("rows", VList [VInt 1; VInt 2])])].
Proof. apply sanitize_clean_unchanged. reflexivity. Defined.

(** ** Classification *)

(** X11. [_extract_connection] never raises on an action that is a
    mapping: it returns the [referenceName] found under inputs, host and
    connection when these three are mappings, and [None] in every other
    case. *)
Theorem extract_connection_lookup (action : pydict) :
  _extract_connection (VDict action)
  = Ok (default VNone
          (path_get ["inputs"; "host"; "connection"; "referenceName"]
             (VDict action))).
Proof.
  unfold _extract_connection. cbn [path_get]. simpl.
  destruct (dict_get "inputs" action) as [[| | | | |inputs]|]; try done.
  simpl. destruct (dict_get "host" inputs) as [[| | | | |host]|]; try done.
  simpl. destruct (dict_get "connection" host) as [[| | | | |conn]|];
    try done.
  simpl. by destruct (dict_get "referenceName" conn).
Qed.

Lemma table_get_descriptions s inputs :
  s ∉ known_types → table_get s (descriptions inputs) = None.
Proof.
  intros Hs. unfold descriptions. cbn [table_get].
  repeat (destruct (String.eqb s _) eqn:Heq;
          [apply String.eqb_eq in Heq; subst s; exfalso; apply Hs;
           unfold known_types; set_solver|clear Heq]).
  reflexivity.
Qed.

Ltac not_in_list :=
  let H := fresh in
  intros H; repeat (apply elem_of_cons in H as [H|H]; [discriminate|]);
  by apply elem_of_nil in H.

(** X12. The fallback of [_describe_action]: an action mapping whose type
    (read as [Unknown] when missing) is a string outside the dispatch
    table is described as that type followed by [action], whatever its
    inputs are. *)
Theorem describe_action_fallback (action : pydict) (s : string) :
  default (VStr "Unknown") (dict_get "type" action) = VStr s →
  s ∉ known_types →
  _describe_action (VDict action) = Ok (s +:+ " action").
Proof.
  unfold _describe_action, py_get. cbn [mbind result_bind].
  intros -> Hs. by rewrite table_get_descriptions.
Qed.

Lemma describe_action_fallback_witness :
  _describe_action (VDict [("type", VStr "FooBar"); ("inputs", VInt 7)])
  = Ok "FooBar action"
  ∧ _describe_action (VDict []) = Ok "Unknown action".
Proof.
  split.
  - apply (describe_action_fallback
             [("type", VStr "FooBar"); ("inputs", VInt 7)] "FooBar");
      [reflexivity | unfold known_types; not_in_list].
  - apply (describe_action_fallback [] "Unknown");
      [reflexivity | unfold known_types; not_in_list].
Defined.

(** ** The parsed record, entry by entry *)

Lemma parse_action_step acts res n r :
  parse_action (VDict acts) res n = Ok r →
  triggers r = triggers res
  ∧ parameters r = parameters res
  ∧ variables r = variables res
  ∧ data_sources r
    = data_sources res ++ option_list (data_source_of acts n)
  ∧ ∃ ai, actions r = actions res ++ [ai]
          ∧ a_name ai = n ∧ action_reflects acts ai.
Proof.
  unfold parse_action. simpl. fold (action_of acts n). intros H.
  repeat inv_bind H. injection H as <-. simpl. split_and!; try done.
  - unfold data_source_of. rewrite Hx5. destruct x5; [done|].
    by rewrite app_nil_r.
  - eexists. split; [reflexivity|]. split; [done|].
    unfold action_reflects. simpl. split_and!; try done.
    + by rewrite Hx1.
    + eauto.
Qed.

Lemma parse_action_fold acts res l r :
  foldM (parse_action (VDict acts)) res l = Ok r →
  triggers r = triggers res
  ∧ parameters r = parameters res
  ∧ variables r = variables res
  ∧ data_sources r = data_sources res ++ omap (data_source_of acts) l
  ∧ ∃ infos, actions r = actions res ++ infos
             ∧ a_name <$> infos = l
             ∧ Forall (action_reflects acts) infos.
Proof.
  revert res. induction l as [|n l IH]; simpl; intros res H.
  - injection H as <-. rewrite app_nil_r. split_and!; try done.
    exists []. by rewrite app_nil_r.
  - inv_bind H.
    apply parse_action_step in Hx
      as (Ht & Hp & Hv & Hds & ai & Hai & Hname & Hreflect).
    apply IH in H as (Ht' & Hp' & Hv' & Hds' & infos & Hinfos & Hnames & Hall).
    split_and!; try congruence.
    + rewrite Hds', Hds, <- app_assoc. f_equal.
      by destruct (data_source_of acts n).
    + exists (ai :: infos). split_and!.
      * rewrite Hinfos, Hai, <- app_assoc. done.
      * rewrite fmap_cons. congruence.
      * by constructor.
Qed.

Lemma parse_trigger_fold items acc trigs :
  foldM parse_trigger acc items = Ok trigs →
  ∃ infos, trigs = acc ++ infos ∧ Forall2 trigger_reflects items infos.
Proof.
  revert acc. induction items as [|[name trig] items IH]; simpl; intros acc H.
  - injection H as <-. exists []. by rewrite app_nil_r.
  - inv_bind H. unfold parse_trigger in Hx. repeat inv_bind Hx.
    injection Hx as <-.
    apply IH in H as (infos & -> & Hall).
    eexists (_ :: infos). rewrite <- app_assoc. split; [reflexivity|].
    constructor; [|done]. by split_and!.
Qed.

(** How a record comes about: from the empty branch, or from the two
    loops of [parse_workflow]. *)
Lemma parse_workflow_inv set_iter definition r :
  parse_workflow set_iter definition = Ok r →
  (truthy definition = false ∧ r = empty_result)
  ∨ ∃ trigs l,
      truthy definition = true
      ∧ foldM parse_trigger [] (input_triggers definition) = Ok trigs
      ∧ _order_actions set_iter (VDict (input_actions definition)) = Ok l
      ∧ foldM (parse_action (VDict (input_actions definition)))
          {| triggers := trigs; actions := []; connections := [];
             data_sources := []; parameters := []; variables := [] |} l
        = Ok r.
Proof.
  unfold parse_workflow. intros H.
  destruct (truthy definition) eqn:Htruthy; simpl in H.
  2:{ left. by injection H as <-. }
  right. repeat inv_bind H.
  destruct definition as [| | | | |d]; try discriminate. simpl in *.
  injection Hx as <-. injection Hx2 as <-.
  assert (x0 = match dict_get "triggers" d with
               | Some (VDict trigs) => trigs
               | _ => []
               end) as ->.
  { destruct (dict_get "triggers" d) as [[]|]; simpl in Hx0;
      by (discriminate || injection Hx0 as <-). }
  unfold _order_actions in Hx3. inv_bind Hx3. injection Hx3 as <-.
  destruct (dict_get "actions" d) as [[| | | | |acts]|];
    simpl in *; try discriminate.
  - exists x1, (ordered x). unfold _order_actions. rewrite Hx. by simpl.
  - exists x1, (ordered x). unfold _order_actions. rewrite Hx. by simpl.
Qed.

(** X13. The record has one trigger entry per trigger of the definition,
    in the order of the mapping, each with the name, type, kind and
    description of its trigger; its parameters and variables are always
    empty. *)
Theorem parse_triggers_reflect set_iter definition r :
  parse_workflow set_iter definition = Ok r →
  Forall2 trigger_reflects (input_triggers definition) (triggers r)
  ∧ t_name <$> triggers r = dict_keys (input_triggers definition)
  ∧ parameters r = []
  ∧ variables r = [].
Proof.
  intros [[Hfalsy ->]|(trigs & l & _ & Htrigs & _ & Hfold)]%parse_workflow_inv.
  - assert (input_triggers definition = []) as ->
      by (by destruct definition as [| | | | |[|]]).
    split_and!; done.
  - apply parse_action_fold in Hfold as (-> & -> & -> & _). simpl.
    apply parse_trigger_fold in Htrigs as (infos & -> & Hall). simpl.
    split_and!; try done.
    clear -Hall. unfold dict_keys.
    induction Hall as [|item ti items infos Hr _ IH]; [done|].
    rewrite !fmap_cons, IH. f_equal. apply Hr.
Qed.

Lemma parse_triggers_reflect_witness :
  ∃ r, parse_workflow elements sample_workflow = Ok r
       ∧ t_name <$> triggers r = ["manual"]
       ∧ parameters r = [] ∧ variables r = [].
Proof.
  destruct (parse_workflow elements sample_workflow) as [r|e] eqn:Hparse;
    [|vm_compute in Hparse; discriminate].
  destruct (parse_triggers_reflect _ _ _ Hparse) as (_ & Hnames & Hp & Hv).
  exists r. by split_and!.
Defined.

(** X14. Every action entry of the record says what its action says: its
    type, the description [_describe_action] gives, the keys of its
    [runAfter] mapping in their order, and its inputs after sanitizing. *)
Theorem parse_actions_reflect set_iter definition r :
  parse_workflow set_iter definition = Ok r →
  Forall (action_reflects (input_actions definition)) (actions r).
Proof.
  intros [[Hfalsy ->]|(trigs & l & _ & _ & _ & Hfold)]%parse_workflow_inv.
  - constructor.
  - apply parse_action_fold in Hfold as (_ & _ & _ & _ & infos & -> & _ & Hall).
    done.
Qed.

Lemma parse_actions_reflect_witness :
  ∃ r, parse_workflow elements sample_workflow = Ok r
       ∧ Forall (action_reflects (input_actions sample_workflow)) (actions r).
Proof.
  destruct (parse_workflow elements sample_workflow) as [r|e] eqn:Hparse;
    [|vm_compute in Hparse; discriminate].
  exists r. split; [done|]. exact (parse_actions_reflect _ _ _ Hparse).
Defined.

(** In a sanitized mapping a sensitive key reached through non-sensitive
    keys holds the marker. *)
Lemma sanitize_output_redacted inputs path k x :
  path_get (path ++ [k]) (VDict (_sanitize_inputs inputs)) = Some x →
  Forall (λ k', is_sensitive k' = false) path →
  is_sensitive k = true →
  x = REDACTED.
Proof.
  revert inputs. induction path as [|k' path IH]; intros inputs Hget Hpath Hk.
  - destruct inputs as [| | | | |d]; try discriminate.
    cbn [app path_get] in Hget. rewrite dict_get_sanitize in Hget.
    destruct (dict_get k d) as [y|]; [|discriminate]. simpl in Hget.
    injection Hget as <-. unfold sanitized_value. by rewrite Hk.
  - apply Forall_cons in Hpath as [Hk' Hpath].
    destruct inputs as [| | | | |d]; try discriminate.
    change ((k' :: path) ++ [k]) with (k' :: (path ++ [k])) in Hget.
    cbn [path_get] in Hget. rewrite dict_get_sanitize in Hget.
    destruct (dict_get k' d) as [v|]; [|discriminate]. simpl in Hget.
    unfold sanitized_value in Hget. rewrite Hk' in Hget.
    destruct v as [| | | | |d'];
      try (destruct path; simpl in Hget; discriminate).
    by eapply IH.
Qed.

(** X15. The inputs that the record publishes never show the value of a
    sensitive key: in the inputs of every action entry, a sensitive key
    reached through non-sensitive keys of nested mappings holds the
    redaction marker. *)
Theorem published_inputs_redacted set_iter definition r ai path k x :
  parse_workflow set_iter definition = Ok r →
  ai ∈ actions r →
  path_get (path ++ [k]) (VDict (a_inputs ai)) = Some x →
  Forall (λ k', is_sensitive k' = false) path →
  is_sensitive k = true →
  x = REDACTED.
Proof.
  intros Hparse Hai Hget Hpath Hk.
  assert (Forall (action_reflects (input_actions definition)) (actions r))
    as Hall.
  { apply parse_workflow_inv in Hparse
      as [[_ ->]|(trigs & l & _ & _ & _ & Hfold)]; [constructor|].
    by apply parse_action_fold in Hfold
      as (_ & _ & _ & _ & infos & -> & _ & Hall). }
  rewrite Forall_forall in Hall. apply Hall in Hai
    as (_ & _ & _ & inputs & _ & Hinputs).
  rewrite Hinputs in Hget. by eapply sanitize_output_redacted.
Qed.

Lemma published_inputs_redacted_witness :
  ∃ r ai,
    parse_workflow elements secret_workflow = Ok r
    ∧ actions r = [ai]
    ∧ path_get ["headers"; "x-api-key"] (VDict (a_inputs ai)) = Some REDACTED.
Proof.
  destruct (parse_workflow elements secret_workflow) as [r|e] eqn:Hparse;
    [|vm_compute in Hparse; discriminate].
  pose proof Hparse as Hr. vm_compute in Hr. injection Hr as <-.
  eexists _, _. split; [reflexivity|]. split; [reflexivity|].
  match goal with
  | |- ?g = _ => destruct g as [x|] eqn:Hget;
                 [|vm_compute in Hget; discriminate]
  end.
  f_equal.
  eapply (published_inputs_redacted elements secret_workflow _ _
            ["headers"] "x-api-key" x Hparse).
  - apply list_elem_of_here.
  - exact Hget.
  - repeat constructor.
  - reflexivity.
Defined.

(** What [_identify_data_source] can return. *)
Lemma identify_data_source_kinds action ds :
  _identify_data_source action = Ok (Some ds) →
  ds_type ds ∈ data_source_types
  ∧ (is_Some (ds_operation ds) ↔ ds_type ds = "SQL Server")
  ∧ py_get_none action "type" = Ok (ds_action ds).
Proof.
  unfold _identify_data_source. intros H. repeat inv_bind H.
  destruct (PyStr.contains "sql" x2).
  { repeat inv_bind H. injection H as <-. simpl. split_and!; [| |done].
    - unfold data_source_types. set_solver.
    - split; [done|by eexists]. }
  destruct (PyStr.contains "sharepointonline" x2).
  { inv_bind H. injection H as <-. simpl. split_and!; [| |done].
    - unfold data_source_types. set_solver.
    - split; [by intros [? ?]|discriminate]. }
  destruct (PyStr.contains "azureblob" x2); [|discriminate].
  inv_bind H. injection H as <-. simpl. split_and!; [| |done].
  - unfold data_source_types. set_solver.
  - split; [by intros [? ?]|discriminate].
Qed.

Lemma omap_length_le {A B} (f : A → option B) (l : list A) :
  length (omap f l) ≤ length l.
Proof.
  induction l as [|x l IH]; [done|].
  change (omap f (x :: l))
    with (match f x with Some y => y :: omap f l | None => omap f l end).
  destruct (f x); cbn [length]; lia.
Qed.

(** X16. The data sources of the record are the data sources found for
    its actions, in their order and with duplicates kept: at most one per
    action.  Each is one of the three known kinds, carries the type of its
    action, and names an operation exactly when it is a SQL Server one. *)
Theorem parse_data_sources set_iter definition r :
  parse_workflow set_iter definition = Ok r →
  data_sources r
  = omap (data_source_of (input_actions definition)) (a_name <$> actions r)
  ∧ length (data_sources r) ≤ length (actions r)
  ∧ Forall (λ ds, ds_type ds ∈ data_source_types
                  ∧ (is_Some (ds_operation ds) ↔ ds_type ds = "SQL Server"))
      (data_sources r).
Proof.
  intros Hparse.
  assert (data_sources r
          = omap (data_source_of (input_actions definition))
              (a_name <$> actions r)) as Hds.
  { apply parse_workflow_inv in Hparse
      as [[Hfalsy ->]|(trigs & l & _ & _ & _ & Hfold)]; [done|].
    apply parse_action_fold in Hfold
      as (_ & _ & _ & -> & infos & -> & <- & _). done. }
  split_and!; [done| |].
  - rewrite Hds. etrans; [apply omap_length_le|]. by rewrite length_fmap.
  - rewrite Hds. generalize (a_name <$> actions r). intros names.
    induction names as [|n names IH]; simpl; [constructor|].
    unfold data_source_of at 1.
    destruct (_identify_data_source (action_of (input_actions definition) n))
      as [[ds|]|] eqn:Hid; try done.
    constructor; [|done].
    by apply identify_data_source_kinds in Hid as (? & ? & _).
Qed.

Lemma parse_data_sources_witness :
  ∃ r, parse_workflow elements sample_workflow = Ok r
       ∧ ds_type <$> data_sources r = ["SQL Server"].
Proof.
  destruct (parse_workflow elements sample_workflow) as [r|e] eqn:Hparse;
    [|vm_compute in Hparse; discriminate].
  destruct (parse_data_sources _ _ _ Hparse) as (Hds & _).
  exists r. split; [done|]. rewrite Hds.
  vm_compute in Hparse. injection Hparse as <-. reflexivity.
Defined.

(** ** Rounds of the ordering loop *)

Lemma order_loop_rounds set_iter acts max fuel st st' :
  set_order set_iter →
  order_loop set_iter acts max fuel st = Ok st' →
  iteration st' ≤ iteration st + size (remaining st).
Proof.
  intros Hiter. revert st. induction fuel as [|fuel IH]; intros st Hrun.
  - simpl in Hrun. injection Hrun as <-. lia.
  - simpl in Hrun.
    destruct (decide (remaining st = ∅)) as [Hempty|Hne].
    { rewrite bool_decide_eq_false_2 in Hrun by (by intros []).
      simpl in Hrun. injection Hrun as <-. lia. }
    rewrite !(bool_decide_eq_true_2 _ Hne) in Hrun.
    assert (size (remaining st) ≠ 0) as Hsize.
    { intros Hz. apply size_empty_iff, leibniz_equiv in Hz. done. }
    destruct (iteration st <? max); simpl in Hrun;
      [|injection Hrun as <-; lia].
    inv_bind Hrun. destruct x as [name|].
    + apply scan_Some in Hx as [Hin _].
      apply (set_iter_elem _ Hiter) in Hin.
      apply IH in Hrun. simpl in Hrun.
      rewrite size_difference in Hrun by set_solver.
      rewrite size_singleton in Hrun. lia.
    + injection Hrun as <-. simpl. lia.
Qed.

(** X17. The ordering never needs more scan rounds than there are
    actions: the cap of twice that number is never what ends the loop. *)
Theorem scan_rounds_bounded set_iter acts st :
  set_order set_iter →
  NoDup (dict_keys acts) →
  order_run set_iter (VDict acts) = Ok st →
  iteration st ≤ length acts.
Proof.
  intros Hiter Hkeys Hrun. unfold order_run in Hrun. simpl in Hrun.
  apply (order_loop_rounds _ _ _ _ _ _ Hiter) in Hrun. simpl in Hrun.
  rewrite size_list_to_set in Hrun by done.
  unfold dict_keys in Hrun. by rewrite length_fmap in Hrun.
Qed.

Lemma scan_rounds_bounded_witness :
  ∃ st, order_run reverse_iter (VDict (input_actions sample_workflow)) = Ok st
        ∧ iteration st ≤ 3.
Proof.
  destruct (order_run reverse_iter (VDict (input_actions sample_workflow)))
    as [st|e] eqn:Hrun; [|vm_compute in Hrun; discriminate].
  exists st. split; [done|].
  apply (scan_rounds_bounded reverse_iter (input_actions sample_workflow) st).
  - intros s. apply reverse_Permutation.
  - apply NoDup_check. vm_compute. reflexivity.
  - exact Hrun.
Defined.

(** ** The rendered document *)

Lemma enumerate_lookup {A} (l : list A) start i x :
  l !! i = Some x → enumerate start l !! i = Some (start + i, x).
Proof.
  revert start i. induction l as [|y l IH]; intros start [|i] H;
    try discriminate.
  - injection H as <-. simpl. by rewrite Nat.add_0_r.
  - simpl. rewrite (IH (S start) i H). do 2 f_equal. lia.
Qed.

Lemma enumerate_length {A} (l : list A) start :
  length (enumerate start l) = length l.
Proof.
  revert start. induction l as [|y l IH]; intros start; simpl; [done|].
  by rewrite IH.
Qed.

Lemma map_lookup {A B} (f : A → B) (l : list A) i x :
  l !! i = Some x → map f l !! i = Some (f x).
Proof.
  revert i. induction l as [|y l IH]; intros [|i] H; try discriminate.
  - by injection H as <-.
  - simpl. by apply IH.
Qed.

Lemma generate_markdown_lines parsed title :
  generate_markdown parsed title
  = PyStr.join PyStr.nl (document_lines parsed title).
Proof. unfold generate_markdown. by rewrite generate_markdown_m_spec. Qed.

(** X18. At the end of a call the list [lines] that the function built,
    whose join by newlines is the text it returns, holds the action table
    with one row per action: for every index [i] the row of the action at
    [i] is the line at position [7 + number of triggers + i] and carries
    the step number [i + 1].  The number of lines is fixed by the sizes of
    the four containers. *)
Theorem render_action_rows (h : heap) title :
  let out := generate_markdown_m title h in
  let parsed := h_parsed h in
  out.1 = PyStr.join PyStr.nl (h_lines out.2)
  ∧ out.1 = generate_markdown parsed title
  ∧ (∀ i a, actions parsed !! i = Some a →
            h_lines out.2 !! (7 + length (triggers parsed) + i)
            = Some (action_row (S i, a)))
  ∧ length (h_lines out.2)
    = 8 + length (triggers parsed) + length (actions parsed)
      + (if connections parsed is [] then 0
         else 2 + length (connections parsed))
      + (if data_sources parsed is [] then 0
         else 2 + length (data_sources parsed)).
Proof.
  cbn zeta. rewrite generate_markdown_m_spec. cbn [fst snd h_lines].
  generalize (h_parsed h). intros parsed. split_and!.
  - reflexivity.
  - symmetry. apply generate_markdown_lines.
  - intros i a Ha. unfold document_lines, table_header.
    rewrite lookup_app_r by (simpl; lia).
    rewrite lookup_app_r by (simpl; rewrite length_map; lia).
    rewrite lookup_app_r by (simpl; rewrite length_map; lia).
    rewrite lookup_app_r by (simpl; rewrite length_map; lia).
    rewrite lookup_app_l.
    2:{ simpl. rewrite !length_map, enumerate_length.
        apply lookup_lt_Some in Ha. lia. }
    simpl length. rewrite length_map.
    replace (_ - _ - _ - _ - _) with i by lia.
    apply (enumerate_lookup _ 1) in Ha.
    by apply (map_lookup action_row) in Ha.
  - unfold document_lines, table_header, connections_section,
      data_sources_section.
    rewrite !length_app. simpl length.
    rewrite !length_map, enumerate_length.
    destruct (connections parsed), (data_sources parsed); simpl;
      rewrite ?length_app, ?length_map; simpl; lia.
Qed.

Lemma render_action_rows_witness :
  let out := generate_markdown_m "Orders"
               {| h_parsed := one_action_record; h_lines := ["stale"] |} in
  h_lines out.2 !! 7
  = Some "| 1 | Reply | Response | Return HTTP 200 response | - |"
  ∧ length (h_lines out.2) = 9.
Proof.
  destruct (render_action_rows
              {| h_parsed := one_action_record; h_lines := ["stale"] |}
              "Orders") as (_ & _ & Hrow & Hlen).
  split; [exact (Hrow 0 reply_entry eq_refl) | exact Hlen].
Defined.

Ltac str_neq :=
  let H := fresh in intros H; rewrite !append_cons in H; discriminate H.

Lemma in_map_elem {A} (f : A → string) (l : list A) (s : string) :
  s ∈ map f l → ∃ x, s = f x.
Proof.
  intros H. apply list_elem_of_In, in_map_iff in H as (x & <- & _). eauto.
Qed.

(** No line of the fixed part, of the trigger list, of the table or of a
    section body is one of the two section headings. *)
Lemma heading_not_elsewhere parsed title heading :
  heading = "### API Connections" ∨ heading = "### Data Sources" →
  (heading ∉ ["## " +:+ title +:+ PyStr.nl; "### Trigger Configuration"]
             ++ map trigger_line (triggers parsed) ++ [""]
             ++ table_header
             ++ map action_row (enumerate 1 (actions parsed)) ++ [""])
  ∧ (heading ∉ map (λ c, "- " +:+ py_str c) (connections parsed) ++ [""])
  ∧ (heading ∉ map data_source_line (data_sources parsed) ++ [""]).
Proof.
  intros Hh. split_and!; intros Hin.
  - repeat (apply elem_of_app in Hin as [Hin|Hin]).
    + apply elem_of_cons in Hin as [Hin|Hin];
        [destruct Hh; subst heading; revert Hin; str_neq|].
      apply list_elem_of_singleton in Hin.
      destruct Hh; subst heading; discriminate.
    + apply in_map_elem in Hin as [t Hin]. unfold trigger_line in Hin.
      destruct Hh; subst heading; revert Hin; str_neq.
    + apply list_elem_of_singleton in Hin.
      destruct Hh; subst heading; discriminate.
    + unfold table_header in Hin.
      repeat (apply elem_of_cons in Hin as [Hin|Hin];
              [destruct Hh; subst heading; discriminate|]).
      by apply elem_of_nil in Hin.
    + apply in_map_elem in Hin as [[i a] Hin]. unfold action_row in Hin.
      destruct Hh; subst heading; revert Hin; str_neq.
    + apply list_elem_of_singleton in Hin.
      destruct Hh; subst heading; discriminate.
  - apply elem_of_app in Hin as [Hin|Hin].
    + apply in_map_elem in Hin as [c Hin].
      destruct Hh; subst heading; revert Hin; str_neq.
    + apply list_elem_of_singleton in Hin.
      destruct Hh; subst heading; discriminate.
  - apply elem_of_app in Hin as [Hin|Hin].
    + apply in_map_elem in Hin as [ds Hin]. unfold data_source_line in Hin.
      destruct Hh; subst heading; revert Hin; str_neq.
    + apply list_elem_of_singleton in Hin.
      destruct Hh; subst heading; discriminate.
Qed.

(** X19. The two optional sections are present exactly when their
    container is not empty: at the end of a call the connections heading is
    one of the lines that the function built, whose join by newlines is the
    text it returns, if and only if the record has a connection, and the
    data-sources heading if and only if it has a data source. *)
Theorem render_optional_sections (h : heap) title :
  let out := generate_markdown_m title h in
  let parsed := h_parsed h in
  out.1 = PyStr.join PyStr.nl (h_lines out.2)
  ∧ out.1 = generate_markdown parsed title
  ∧ ("### API Connections" ∈ h_lines out.2 ↔ connections parsed ≠ [])
  ∧ ("### Data Sources" ∈ h_lines out.2 ↔ data_sources parsed ≠ []).
Proof.
  cbn zeta. rewrite generate_markdown_m_spec. cbn [fst snd h_lines].
  generalize (h_parsed h). intros parsed.
  split; [reflexivity|].
  split; [symmetry; apply generate_markdown_lines|].
  destruct (heading_not_elsewhere parsed title "### API Connections")
    as (Hc1 & Hc2 & Hc3); [by left|].
  destruct (heading_not_elsewhere parsed title "### Data Sources")
    as (Hd1 & Hd2 & Hd3); [by right|].
  assert (∀ x, x ∈ document_lines parsed title
               ↔ x ∈ (["## " +:+ title +:+ PyStr.nl;
                        "### Trigger Configuration"]
                       ++ map trigger_line (triggers parsed) ++ [""]
                       ++ table_header
                       ++ map action_row (enumerate 1 (actions parsed))
                       ++ [""])
                 ∨ x ∈ connections_section (connections parsed)
                 ∨ x ∈ data_sources_section (data_sources parsed)) as Hdoc.
  { intros x. unfold document_lines. rewrite !elem_of_app. tauto. }
  rewrite !Hdoc. unfold connections_section, data_sources_section.
  destruct (connections parsed) as [|c conns];
    destruct (data_sources parsed) as [|ds dss];
    rewrite ?elem_of_cons, ?elem_of_nil; split; split; try done.
  all: try (intros _; right; left; left; done).
  all: try (intros _; right; right; left; done).
  all: intros [?|[?|?]]; try done.
  all: repeat match goal with
              | H : _ ∨ _ |- _ => destruct H as [H|H]
              end; try done.
Qed.

(** ** Path segments *)

Lemma split_last_segment sep s :
  ∃ x r, PyStr.split sep s = x :: r
         ∧ char_free sep (List.last (x :: r) "") = true
         ∧ (char_free sep x = true)
         ∧ (s = List.last (x :: r) "" ∧ r = []
            ∨ r ≠ [] ∧ ∃ pre, s = pre +:+ String sep (List.last (x :: r) "")).
Proof.
  induction s as [|c s (x & r & Hsplit & Hfree & Hx & Hshape)].
  - exists "", []. split_and!; try done. by left.
  - cbn [PyStr.split]. rewrite Hsplit.
    destruct (Ascii.eqb c sep) eqn:Hc.
    + apply Ascii.eqb_eq in Hc as ->.
      exists "", (x :: r). split_and!; try done.
      right. split; [done|].
      destruct Hshape as [[Hs ->]|[Hr [pre Hs]]].
      * exists "". by rewrite append_nil, Hs at 1.
      * exists (String sep pre). rewrite append_cons. f_equal.
        rewrite Hs at 1. by destruct r.
    + exists (String c x), r.
      destruct Hshape as [[Hs ->]|[Hr [pre Hs]]].
      * simpl in *. rewrite Hc. simpl. split_and!; try done.
        left. split; [|done]. by rewrite Hs at 1.
      * destruct r as [|y r]; [done|].
        change (List.last (String c x :: y :: r) "")
          with (List.last (y :: r) "").
        change (List.last (x :: y :: r) "")
          with (List.last (y :: r) "") in *.
        split_and!; try done.
        { simpl. by rewrite Hc, Hx. }
        right. split; [done|]. exists (String c pre).
        rewrite append_cons. f_equal. exact Hs.
Qed.

(** [s.split(sep)[-1]] has no separator, and is the whole of [s] or what
    follows its last separator. *)
Lemma last_segment_spec sep s :
  char_free sep (PyStr.last_segment sep s) = true
  ∧ (s = PyStr.last_segment sep s
     ∨ ∃ pre, s = pre +:+ String sep (PyStr.last_segment sep s)).
Proof.
  unfold PyStr.last_segment.
  destruct (split_last_segment sep s) as (x & r & -> & Hfree & _ & Hshape).
  split; [done|]. destruct Hshape as [[? _]|[_ ?]]; [by left|by right].
Qed.

(** X20. The operation of a SQL Server data source is [query] when the
    inputs have no path (or a falsy one); otherwise the path is a string
    and the operation is what follows its last slash (the whole path when
    it has none), so it never contains a slash. *)
Theorem sql_operation_segment action ds :
  _identify_data_source action = Ok (Some ds) →
  ds_type ds = "SQL Server" →
  ∃ inputs op,
    py_get action "inputs" (VDict []) = Ok (VDict inputs)
    ∧ ds_operation ds = Some op
    ∧ if truthy (default VNone (dict_get "path" inputs)) then
        ∃ p, dict_get "path" inputs = Some (VStr p)
             ∧ char_free "/" op = true
             ∧ (p = op ∨ ∃ pre, p = pre +:+ "/" +:+ op)
      else op = "query".
Proof.
  unfold _identify_data_source. intros H Hty. repeat inv_bind H.
  destruct (PyStr.contains "sql" x2).
  2:{ destruct (PyStr.contains "sharepointonline" x2).
      { inv_bind H. injection H as <-. discriminate. }
      destruct (PyStr.contains "azureblob" x2); [|discriminate].
      inv_bind H. injection H as <-. discriminate. }
  repeat inv_bind H. injection H as <-. clear Hty.
  destruct x as [| | | | |inputs]; try discriminate.
  exists inputs, x5. split_and!; [done|done|].
  simpl in Hx4. injection Hx4 as <-.
  destruct (truthy (default VNone (dict_get "path" inputs))) eqn:Htruthy.
  - inv_bind Hx5. simpl in Hx4. injection Hx4 as <-.
    destruct (dict_get "path" inputs) as [[| | |p| |]|] eqn:Hpath;
      try discriminate.
    simpl in Hx5. injection Hx5 as <-.
    exists p. split; [done|].
    destruct (last_segment_spec "/" p) as [Hfree Hshape].
    split; [done|]. destruct Hshape as [?|[pre ?]]; [by left|].
    right. exists pre. by rewrite append_cons, append_nil.
  - by injection Hx5 as <-.
Qed.

Lemma sql_operation_segment_witness :
  ∃ ds op, _identify_data_source sql_action = Ok (Some ds)
           ∧ ds_operation ds = Some op
           ∧ char_free "/" op = true.
Proof.
  destruct (_identify_data_source sql_action) as [[ds|]|e] eqn:Hid;
    [|vm_compute in Hid; discriminate|vm_compute in Hid; discriminate].
  destruct (sql_operation_segment sql_action ds Hid)
    as (inputs & op & Hinputs & Hop & Hshape).
  - vm_compute in Hid. by injection Hid as <-.
  - exists ds, op. split_and!; [done|done|].
    injection Hinputs as <-.
    destruct Hshape as (p & _ & Hfree & _). exact Hfree.
Defined.

(** ** The API record *)

Lemma identify_backend_ok url :
  is_ok (_identify_backend url)
  = match url with
    | VStr _ => true
    | VList l => negb (py_in_list (VStr "azurewebsites.net") l)
    | VDict e => negb (bool_decide ("azurewebsites.net" ∈ dict_keys e))
    | _ => false
    end.
Proof.
  unfold _identify_backend.
  destruct url as [| | |s|l|e]; simpl; try done.
  - repeat (match goal with |- context [if ?c then _ else _] => destruct c end;
            simpl); done.
  - repeat (match goal with |- context [if ?c then _ else _] => destruct c end;
            simpl); done.
  - repeat (match goal with |- context [if ?c then _ else _] => destruct c end;
            simpl); done.
Qed.

(** X21. [add_api_config] returns for every mapping whose service URL is
    missing, falsy or a string.  With a truthy service URL that is a number
    or a boolean it raises, and with a list or mapping it raises exactly
    when [azurewebsites.net] is one of its members or keys. *)
Theorem api_config_accepts service d :
  is_ok (add_api_config service (VDict d)) = service_url_accepted d.
Proof.
  unfold add_api_config, service_url_accepted.
  cbn [py_get py_get_none mbind result_bind].
  destruct (dict_get "serviceUrl" d) as [url|]; [|done].
  simpl.
  destruct (truthy url) eqn:Htruthy.
  - transitivity (is_ok (_identify_backend url));
      [by destruct (_identify_backend url)|].
    rewrite identify_backend_ok.
    destruct url as [|[]|z|s|l|e]; try done.
    simpl in Htruthy. by destruct (z =? 0)%Z.
  - destruct url as [|[]|z|s|l|e]; try done.
    + simpl in Htruthy. by destruct (z =? 0)%Z.
    + by destruct l.
    + by destruct e.
Qed.

(** X22. The API record that [add_api_config] stores has the eight base
    keys, in this order, followed by [backend_type] exactly when the
    service URL is truthy; its service URL and its operations are those of
    the payload ([None] and the empty list when absent). *)
Theorem api_record_keys service d service' :
  add_api_config service (VDict d) = Ok service' →
  ∃ api,
    service' = dict_set "api" (VDict api) service
    ∧ dict_keys api
      = api_base_keys
        ++ (if truthy (backend_url_of d) then ["backend_type"] else [])
    ∧ dict_get "service_url" api = Some (default VNone (dict_get "serviceUrl" d))
    ∧ dict_get "operations" api
      = Some (default (VList []) (dict_get "operations" d)).
Proof.
  unfold add_api_config, backend_url_of. simpl. intros H.
  destruct (truthy (default (VStr "") (dict_get "serviceUrl" d))).
  - inv_bind H. injection H as <-. eexists. split; [reflexivity|].
    split_and!; reflexivity.
  - injection H as <-. eexists. split; [reflexivity|].
    split_and!; reflexivity.
Qed.

Lemma api_record_keys_witness :
  ∃ service' api,
    add_api_config [] (VDict api_payload) = Ok service'
    ∧ dict_get "api" service' = Some (VDict api)
    ∧ dict_keys api = api_base_keys ++ ["backend_type"].
Proof.
  destruct (add_api_config [] (VDict api_payload)) as [service'|e] eqn:Hadd;
    [|vm_compute in Hadd; discriminate].
  destruct (api_record_keys [] api_payload service' Hadd)
    as (api & -> & Hkeys & _).
  exists (dict_set "api" (VDict api) []), api.
  split_and!; [done|reflexivity|exact Hkeys].
Defined.

(** ** Trigger descriptions *)

(** X23. [_describe_trigger] returns for a trigger mapping except in two
    cases: a [Request] trigger whose [inputs] is not a mapping, and a
    [Recurrence] trigger whose [recurrence] is not a mapping or whose
    [frequency] is not a string. *)
Theorem describe_trigger_accepts t :
  is_ok (_describe_trigger (VDict t)) = trigger_accepted t.
Proof.
  unfold _describe_trigger, trigger_accepted, mapping_or_absent.
  cbn [py_get mbind result_bind].
  destruct (py_eq (default (VStr "Unknown") (dict_get "type" t))
              (VStr "Request")).
  { destruct (dict_get "inputs" t) as [[]|]; done. }
  destruct (py_eq (default (VStr "Unknown") (dict_get "type" t))
              (VStr "Recurrence")).
  { destruct (default (VDict []) (dict_get "recurrence" t))
      as [| | | | |rec]; try done.
    cbn [py_get mbind result_bind].
    destruct (dict_get "frequency" rec) as [[]|]; done. }
  by destruct (py_eq (default (VStr "Unknown") (dict_get "type" t))
                 (VStr "ApiConnection")).
Qed.

(** ** Stored procedures *)

Lemma contains_char c s :
  PyStr.contains (String c "") s = negb (char_free c s).
Proof.
  induction s as [|a s IH]; [done|].
  cbn [PyStr.contains char_free]. rewrite IH. simpl.
  destruct (ascii_dec c a) as [->|Hne].
  - rewrite Ascii.eqb_refl. by destruct s.
  - apply not_eq_sym, Ascii.eqb_neq in Hne. by rewrite Hne.
Qed.

(** X24. For a SQL connection whose path mentions
    [executestoredprocedure], the description names the procedure: what
    follows the last slash of the path, or the words [stored procedure]
    when the path has no slash.  The name never contains a slash. *)
Theorem stored_procedure_named d host api path :
  dict_get "host" d = Some (VDict host) →
  dict_get "apiId" host = Some (VStr api) →
  dict_get "path" d = Some (VStr path) →
  PyStr.contains "sql" (PyStr.lower api) = true →
  PyStr.contains "executestoredprocedure" (PyStr.lower path) = true →
  ∃ proc,
    _describe_api_connection (VDict d)
    = Ok ("Execute SQL stored procedure: " +:+ proc)
    ∧ char_free "/" proc = true
    ∧ if PyStr.contains "/" path then ∃ pre, path = pre +:+ "/" +:+ proc
      else proc = "stored procedure".
Proof.
  intros Hhost Hapi Hpath Hsql Hproc. unfold _describe_api_connection.
  cbn [py_get mbind result_bind]. rewrite Hhost. cbn [default from_option id].
  cbn [py_get mbind result_bind]. rewrite Hapi, Hpath.
  cbn [default from_option id py_lower mbind result_bind].
  rewrite Hsql, Hproc. cbn [py_str_in mbind result_bind].
  destruct (PyStr.contains "/" path) eqn:Hslash.
  - cbn [py_split_last mbind result_bind].
    eexists. split; [reflexivity|].
    destruct (last_segment_spec "/" path) as [Hfree [Hwhole|[pre Hpre]]].
    + rewrite contains_char in Hslash. rewrite Hwhole in Hslash.
      by rewrite Hfree in Hslash.
    + split; [done|]. exists pre. by rewrite append_cons, append_nil.
  - eexists. split; [reflexivity|]. done.
Qed.

Lemma stored_procedure_named_witness :
  ∃ proc,
    _describe_api_connection
      (VDict [("host", VDict [("apiId", VStr "/apis/sql")]);
              ("path", VStr "/ExecuteStoredProcedure/sp_GetData")])
    = Ok ("Execute SQL stored procedure: " +:+ proc)
    ∧ char_free "/" proc = true
    ∧ ∃ pre, "/ExecuteStoredProcedure/sp_GetData" = pre +:+ "/" +:+ proc.
Proof.
  destruct (stored_procedure_named
              [("host", VDict [("apiId", VStr "/apis/sql")]);
               ("path", VStr "/ExecuteStoredProcedure/sp_GetData")]
              [("apiId", VStr "/apis/sql")] "/apis/sql"
              "/ExecuteStoredProcedure/sp_GetData")
    as (proc & Hdesc & Hfree & Hshape);
    [reflexivity|reflexivity|reflexivity|reflexivity|reflexivity|].
  exists proc. split_and!; [exact Hdesc|exact Hfree|exact Hshape].
Defined.
